(** * figsearch: the longest horizontal line of a bitmap

    A shallow embedding of [src/example/figsearch/figsearch.c] and the
    properties of its loader, its line search and its command dispatcher.

    Conventions of the embedding.
    - [unsigned] is a 32-bit integer: a [Z] in [0, 2^32), every arithmetic
      operation of the source written with its wrap-around ([uadd], [usub],
      [umul]).
    - The flexible array member [data] is a [list bool]; reading past its end
      is undefined behaviour and is reported as [Undefined].
    - Loops are fixpoints over a fuel counter that test the loop condition of
      the source at each turn; running out of fuel is the separate outcome
      [OutOfFuel], shown below never to happen.
    - The streams are strings: what was printed on standard output and on
      standard error. *)

From Stdlib Require Import ZArith Lia Bool Ascii String DecimalString DecimalN.
From stdpp Require Import base tactics option list numbers.

Local Open Scope Z_scope.

(** ** Outcomes *)

Inductive outcome (A : Type) : Type :=
| Done (a : A)      (* the call returned *)
| Undefined         (* undefined behaviour of C was reached *)
| OutOfFuel         (* the fuel of the model ran out *)
| Violation.        (* a monitored assertion did not hold *)

Arguments Done {A} a.
Arguments Undefined {A}.
Arguments OutOfFuel {A}.
Arguments Violation {A}.

Definition obind {A B : Type} (m : outcome A) (k : A -> outcome B) : outcome B :=
  match m with
  | Done a => k a
  | Undefined => Undefined
  | OutOfFuel => OutOfFuel
  | Violation => Violation
  end.

Notation "'let*' x ':=' m 'in' k" := (obind m (fun x => k))
  (at level 10, x pattern, m at level 100, k at level 200).

(** ** Unsigned arithmetic *)

Definition UINT_MAX : Z := 4294967295.
Definition INT_MIN : Z := -2147483648.
Definition INT_MAX : Z := 2147483647.

Definition wrap (z : Z) : Z := z mod (UINT_MAX + 1).
Definition uadd (a b : Z) : Z := wrap (a + b).
Definition usub (a b : Z) : Z := wrap (a - b).
Definition umul (a b : Z) : Z := wrap (a * b).

(** ** Data model *)

(** [Point]: the fields [x] (column) and [y] (row) of the source. *)
Record Point : Type := mkPoint { pt_x : Z; pt_y : Z }.

(** [Line]: the fields [start] and [end] of the source. *)
Record Line : Type := mkLine { l_start : Point; l_end : Point }.

Record Bitmap : Type := mkBitmap { width : Z; height : Z; data : list bool }.

(** [bitmap->data[index]] as an rvalue. *)
Definition read_data (bitmap : Bitmap) (index : Z) : outcome bool :=
  match data bitmap !! Z.to_nat index with
  | Some v => Done v
  | None => Undefined
  end.

(** ** The line search *)

Definition hline_length (start e : Point) : Z :=
  uadd (usub (pt_x e) (pt_x start)) 1.

(** The locals [start_final], [end_final] and [length_final] of [find_hline].
    The two points are declared without an initialiser: [None] is the
    indeterminate value. *)
Record Best : Type := mkBest {
  start_final : option Point;
  end_final : option Point;
  length_final : Z
}.

Section Search.

(** [monitor w l] is evaluated on [bitmap->width] and [length_final] each
    time the condition of the column loop is; the search stops with
    [Violation] when it is false. It observes the run and changes nothing
    else. *)
Variable monitor : Z -> Z -> bool.

(** The loop over [i]: its result is the pair of [x] and [end] after it. *)
Fixpoint extend_loop (fuel : nat) (bitmap : Bitmap) (y x : Z) (e : Point) (i : Z)
  : outcome (Z * Point) :=
  if i <? width bitmap then
    match fuel with
    | O => OutOfFuel
    | S fuel' =>
        let look_index := uadd (umul y (width bitmap)) i in
        let* v := read_data bitmap look_index in
        if negb v then Done (i, e)
        else extend_loop fuel' bitmap y x (mkPoint i (pt_y e)) (uadd i 1)
    end
  else Done (x, e).

(** The loop over [x], from the evaluation of its condition. *)
Fixpoint column_loop (fuel : nat) (bitmap : Bitmap) (y x : Z) (st : Best)
  : outcome Best :=
  if monitor (width bitmap) (length_final st) then
    if x <? usub (width bitmap) (length_final st) then
      match fuel with
      | O => OutOfFuel
      | S fuel' =>
          let index := uadd (umul y (width bitmap)) x in
          let* v := read_data bitmap index in
          if v then
            let start := mkPoint x y in
            let* (x', e) :=
              extend_loop (Z.to_nat (width bitmap)) bitmap y x (mkPoint x y) (uadd x 1) in
            let current_length := hline_length start e in
            let st' :=
              if (length_final st =? 0) || (length_final st <? current_length)
              then mkBest (Some start) (Some e) current_length
              else st in
            column_loop fuel' bitmap y (uadd x' 1) st'
          else column_loop fuel' bitmap y (uadd x 1) st
      end
    else Done st
  else Violation.

(** The loop over [y]. *)
Fixpoint row_loop (fuel : nat) (bitmap : Bitmap) (y : Z) (st : Best) : outcome Best :=
  if y <? height bitmap then
    match fuel with
    | O => OutOfFuel
    | S fuel' =>
        let* st' := column_loop (Z.to_nat (width bitmap)) bitmap y 0 st in
        row_loop fuel' bitmap (uadd y 1) st'
    end
  else Done st.

(** [Some l]: the function returned 0 after writing [l] to [*line];
    [None]: it returned 1 and left [*line] alone. *)
Definition find_hline_monitored (bitmap : Bitmap) : outcome (option Line) :=
  let* st := row_loop (Z.to_nat (height bitmap)) bitmap 0 (mkBest None None 0) in
  if negb (length_final st =? 0) then
    match start_final st, end_final st with
    | Some s, Some e => Done (Some (mkLine s e))
    | _, _ => Undefined
    end
  else Done None.

End Search.

Definition find_hline : Bitmap -> outcome (option Line) :=
  find_hline_monitored (fun _ _ => true).

(** The search with the assertion [length_final <= bitmap->width] at every
    evaluation of the column loop's condition. *)
Definition find_hline_checked : Bitmap -> outcome (option Line) :=
  find_hline_monitored (fun w l => l <=? w).

(** ** What the search is about *)

(** The cell of row [y] and column [x]. *)
Definition cell (b : Bitmap) (x y : Z) : bool :=
  default false (data b !! Z.to_nat (y * width b + x)).

Definition line_length (l : Line) : Z := pt_x (l_end l) - pt_x (l_start l) + 1.

(** A grid as the data model has it and as [create_bitmap] can allocate it:
    positive dimensions and [width * height] cells, a number that the
    [unsigned] product in [create_bitmap] represents. *)
Definition valid_grid (b : Bitmap) : Prop :=
  0 < width b /\ 0 < height b /\
  Z.of_nat (length (data b)) = width b * height b /\
  width b * height b <= UINT_MAX.

Definition has_set_cell (b : Bitmap) : Prop :=
  exists x y, 0 <= x < width b /\ 0 <= y < height b /\ cell b x y = true.

(** The cells [s..e] of row [y] are set. *)
Definition is_run (b : Bitmap) (y s e : Z) : Prop :=
  0 <= y < height b /\ 0 <= s /\ s <= e /\ e < width b /\
  forall x, s <= x <= e -> cell b x y = true.

(** A run that cannot be extended on either side. *)
Definition maximal_run (b : Bitmap) (y s e : Z) : Prop :=
  is_run b y s e /\
  (s = 0 \/ cell b (s - 1) y = false) /\
  (e = width b - 1 \/ cell b (e + 1) y = false).

(** ** The reference scan

    The search as the specification words it, with no skipping: every cell of
    every row is visited in scan order; a set cell that no earlier run of the
    row absorbed starts a run, which is extended to the right while cells are
    set; the best so far is replaced on strict improvement only. *)

Fixpoint run_end (n : nat) (b : Bitmap) (y e : Z) : Z :=
  match n with
  | O => e
  | S n' => if (e + 1 <? width b) && cell b (e + 1) y
            then run_end n' b y (e + 1) else e
  end.

Definition starts_run (b : Bitmap) (y x : Z) : bool :=
  cell b x y && negb ((0 <? x) && cell b (x - 1) y).

Definition naive_step (b : Bitmap) (y : Z) (best : option Line) (x : Z) : option Line :=
  if starts_run b y x then
    let cand := mkLine (mkPoint x y) (mkPoint (run_end (Z.to_nat (width b)) b y x) y) in
    match best with
    | None => Some cand
    | Some l => if line_length l <? line_length cand then Some cand else best
    end
  else best.

Definition naive_row (b : Bitmap) (best : option Line) (y : Z) : option Line :=
  fold_left (naive_step b y) (seqZ 0 (width b)) best.

Definition naive_hline (b : Bitmap) : option Line :=
  fold_left (naive_row b) (seqZ 0 (height b)) None.

(** Grids written row by row. *)
Definition grid (rows : list (list bool)) : Bitmap :=
  mkBitmap (Z.of_nat (length (hd [] rows))) (Z.of_nat (length rows)) (concat rows).

(** ** The locals of the search and the best line so far

    [repr o] is the value of the three locals of [find_hline] when the best
    line found so far is [o]. *)
Definition repr (o : option Line) : Best :=
  match o with
  | None => mkBest None None 0
  | Some l => mkBest (Some (l_start l)) (Some (l_end l)) (line_length l)
  end.

Definition best_len (o : option Line) : Z :=
  match o with
  | None => 0
  | Some l => line_length l
  end.

Definition good_best (b : Bitmap) (o : option Line) : Prop :=
  forall l, o = Some l -> 1 <= line_length l <= width b.

(** ** Scan order

    [before y' x' y x]: position (row [y'], column [x']) is visited by the
    scan before position (row [y], column [x]). *)
Definition before (y' x' y x : Z) : Prop := y' < y \/ (y' = y /\ x' < x).

Definition not_after (y' x' y x : Z) : Prop := y' < y \/ (y' = y /\ x' <= x).

(** [o] is the first of the longest runs among the runs that start before
    (row [y], column [x]); [None] when no run starts there. *)
Definition first_longest_before (b : Bitmap) (y x : Z) (o : option Line) : Prop :=
  match o with
  | None => forall y' s e, is_run b y' s e -> ~ before y' s y x
  | Some l =>
      pt_y (l_end l) = pt_y (l_start l) /\
      maximal_run b (pt_y (l_start l)) (pt_x (l_start l)) (pt_x (l_end l)) /\
      before (pt_y (l_start l)) (pt_x (l_start l)) y x /\
      forall y' s e, is_run b y' s e -> before y' s y x ->
        e - s + 1 < line_length l \/
        (e - s + 1 = line_length l /\
         not_after (pt_y (l_start l)) (pt_x (l_start l)) y' s)
  end.

(** ** Outcomes that are no artefact of the model

    [safe P o]: the run neither ran out of fuel nor broke a monitored
    assertion, and a returned value satisfies [P]. *)
Definition safe {A : Type} (P : A -> Prop) (o : outcome A) : Prop :=
  match o with
  | Done a => P a
  | Undefined => True
  | OutOfFuel => False
  | Violation => False
  end.

(** ** The streams and the environment *)

Definition newline : string := String "010"%char EmptyString.

(** A line of text, as the format ["...\n"] prints it. *)
Definition text_line (s : string) : string := String.append s newline.

(** What [main] cannot decide by itself: which files [fopen] opens for
    reading, with their contents, and which sizes [malloc] grants. *)
Record Env : Type := mkEnv {
  fopen : string -> option string;
  malloc_ok : Z -> bool
}.

(** ** [fscanf]

    The integer conversions of [fscanf] after ISO C 7.21.6.2: white space is
    skipped, then an optional sign and a nonempty sequence of decimal digits
    are consumed, as many as there are. The result is the integer they
    denote; when the object that receives it cannot represent it the
    behaviour is undefined. *)

Definition isspace (c : ascii) : bool :=
  let n := Z.of_nat (nat_of_ascii c) in (n =? 32) || ((9 <=? n) && (n <=? 13)).

Definition isdigit (c : ascii) : bool :=
  let n := Z.of_nat (nat_of_ascii c) in (48 <=? n) && (n <=? 57).

Definition digit_value (c : ascii) : Z := Z.of_nat (nat_of_ascii c) - 48.

Fixpoint skip_space (s : string) : string :=
  match s with
  | String c r => if isspace c then skip_space r else s
  | EmptyString => s
  end.

(** The digits at the head of [s], read after the value [acc]. *)
Fixpoint scan_digits (s : string) (acc : Z) : Z * string :=
  match s with
  | String c r => if isdigit c then scan_digits r (10 * acc + digit_value c) else (acc, s)
  | EmptyString => (acc, s)
  end.

Definition scan_sign (s : string) : bool * string :=
  match s with
  | String c r =>
      if Ascii.eqb c "-" then (true, r)
      else if Ascii.eqb c "+" then (false, r)
      else (false, s)
  | EmptyString => (false, s)
  end.

(** One conversion: the integer and the rest of the stream, or [None] when
    the input does not match (or has ended). *)
Definition scan_integer (s : string) : option (Z * string) :=
  let (negative, s1) := scan_sign (skip_space s) in
  match s1 with
  | String c _ =>
      if isdigit c then
        let (v, rest) := scan_digits s1 0 in
        Some (if negative then - v else v, rest)
      else None
  | EmptyString => None
  end.

(** [fscanf(file, "%u %u", &a, &b)]: [Some (a, b, rest)] when it returns 2,
    [None] when it returns anything else. *)
Definition fscanf_u_u (file : string) : outcome (option (Z * Z * string)) :=
  match scan_integer file with
  | None => Done None
  | Some (a, file1) =>
      if (0 <=? a) && (a <=? UINT_MAX) then
        match scan_integer file1 with
        | None => Done None
        | Some (b, file2) =>
            if (0 <=? b) && (b <=? UINT_MAX) then Done (Some (a, b, file2))
            else Undefined
        end
      else Undefined
  end.

(** [fscanf(file, "%d", &pixel)]: [Some (pixel, rest)] when it returns 1. *)
Definition fscanf_d (file : string) : outcome (option (Z * string)) :=
  match scan_integer file with
  | None => Done None
  | Some (v, file1) =>
      if (INT_MIN <=? v) && (v <=? INT_MAX) then Done (Some (v, file1))
      else Undefined
  end.

(** ** The loader *)

Definition sizeof_Bitmap : Z := 8.
Definition sizeof_bool : Z := 1.

(** The cells of a grid fresh from [malloc] are indeterminate; the loader
    writes every one of them before it returns the grid, and [false] stands
    for them until then. *)
Definition create_bitmap (env : Env) (width height : Z) : option Bitmap :=
  let size := sizeof_Bitmap + umul width height * sizeof_bool in
  if malloc_ok env size
  then Some (mkBitmap width height (replicate (Z.to_nat (umul width height)) false))
  else None.

(** [bitmap->data[index] = v]. *)
Definition write_data (bitmap : Bitmap) (index : Z) (v : bool) : outcome Bitmap :=
  if index <? Z.of_nat (length (data bitmap))
  then Done (mkBitmap (width bitmap) (height bitmap) (<[Z.to_nat index := v]> (data bitmap)))
  else Undefined.

(** The loop over [index]: [None] when it left through the error return. *)
Fixpoint pixel_loop (fuel : nat) (bitmap_area index : Z) (file : string) (bitmap : Bitmap)
  : outcome (option Bitmap) :=
  if index <? bitmap_area then
    match fuel with
    | O => OutOfFuel
    | S fuel' =>
        let* r := fscanf_d file in
        match r with
        | None => Done None
        | Some (pixel, file') =>
            if negb (pixel =? 0) && negb (pixel =? 1) then Done None
            else
              let* bitmap' := write_data bitmap index (negb (pixel =? 0)) in
              pixel_loop fuel' bitmap_area (uadd index 1) file' bitmap'
        end
    end
  else Done (Some bitmap).

(** The result is the grid ([None] for [NULL]) and what was printed on the
    error stream. *)
Definition load_bitmap (env : Env) (filename : string) : outcome (option Bitmap * string) :=
  match fopen env filename with
  | None => Done (None, text_line "File not found")
  | Some file =>
      let* r := fscanf_u_u file in
      match r with
      | None => Done (None, text_line "Invalid file format")
      | Some (height, width, file1) =>
          if (width <=? 0) || (height <=? 0)
          then Done (None, text_line "Invalid bitmap size")
          else
            match create_bitmap env width height with
            | None => Done (None, text_line "Memory allocation failed")
            | Some bitmap =>
                let bitmap_area := umul width height in
                let* r := pixel_loop (Z.to_nat bitmap_area) bitmap_area 0 file1 bitmap in
                match r with
                | None => Done (None, text_line "Invalid pixel value")
                | Some bitmap' => Done (Some bitmap', EmptyString)
                end
            end
      end
  end.

(** ** The commands *)

Definition print_help : string :=
  String.concat EmptyString
    [ text_line "Usage: figsearch COMMAND [FILE]";
      text_line "Commands:";
      text_line "  --help   Display this help message";
      text_line "  test     Check if the file contains valid bitmap";
      text_line "  hline    Find longest horizontal line" ].

(** The return value and the error stream. *)
Definition test_bitmap (env : Env) (filename : string) : outcome (Z * string) :=
  let* (bitmap, err) := load_bitmap env filename in
  match bitmap with
  | None => Done (1, err)
  | Some _ => Done (0, err)
  end.

(** The conversion [%u]. *)
Definition print_unsigned (z : Z) : string :=
  NilZero.string_of_uint (N.to_uint (Z.to_N z)).

Definition print_line (line : Line) : string :=
  let sp := String " "%char EmptyString in
  String.concat sp
    [ print_unsigned (pt_y (l_start line)); print_unsigned (pt_x (l_start line));
      print_unsigned (pt_y (l_end line)); text_line (print_unsigned (pt_x (l_end line))) ].

Definition get_filename (argc : Z) (argv : list string) : option string :=
  if 2 <? argc then argv !! 2%nat else None.

(** [main]: the exit code, standard output and the error stream. [argv]
    holds [argc] strings, the name of the program first. *)
Definition main (env : Env) (argv : list string) : outcome (Z * string * string) :=
  let argc := Z.of_nat (length argv) in
  if (argc <? 2) || (3 <? argc)
  then Done (1, EmptyString, text_line "Invalid arguments")
  else
    match argv !! 1%nat with
    | None => Undefined
    | Some command =>
        if String.eqb command "--help" then Done (0, print_help, EmptyString)
        else
          let filename := get_filename argc argv in
          if String.eqb command "test" then
            match filename with
            | None => Done (1, EmptyString, text_line "Filename required")
            | Some name =>
                let* (code, err) := test_bitmap env name in
                Done (code, EmptyString, err)
            end
          else if String.eqb command "hline" then
            match filename with
            | None => Done (1, EmptyString, text_line "Filename required")
            | Some name =>
                let* (bitmap, err) := load_bitmap env name in
                match bitmap with
                | None => Done (1, EmptyString, err)
                | Some bitmap =>
                    let* result := find_hline bitmap in
                    match result with
                    | Some line => Done (0, print_line line, err)
                    | None => Done (1, EmptyString, String.append err (text_line "No line found"))
                    end
                end
            end
          else Done (1, EmptyString, text_line "Invalid command")
    end.

(** An environment with one file, where every allocation succeeds. *)
Definition one_file (name content : string) : Env :=
  mkEnv (fun n => if String.eqb n name then Some content else None) (fun _ => true).


(** ** What the loader is about *)

(** [n] integer conversions in a row: the integers and the rest of the
    stream, or [None] when one of them does not match. *)
Fixpoint scan_integers (n : nat) (s : string) : option (list Z * string) :=
  match n with
  | O => Some ([], s)
  | S n' =>
      match scan_integer s with
      | None => None
      | Some (v, r) =>
          match scan_integers n' r with
          | None => None
          | Some (vs, r') => Some (v :: vs, r')
          end
      end
  end.

Definition is_bit (p : Z) : Prop := p = 0 \/ p = 1.

(** The next conversion does not match, or yields an [int] other than 0
    and 1. *)
Definition bad_pixel (s : string) : Prop :=
  scan_integer s = None \/
  exists p r, scan_integer s = Some (p, r) /\
    INT_MIN <= p <= INT_MAX /\ ~ is_bit p.

(** The failures of the loader, in the order in which it checks, each with
    its diagnostic. *)
Inductive load_failure (env : Env) (filename : string) : string -> Prop :=
| fail_unreadable :
    fopen env filename = None ->
    load_failure env filename (text_line "File not found")
| fail_first_dimension file :
    fopen env filename = Some file ->
    scan_integer file = None ->
    load_failure env filename (text_line "Invalid file format")
| fail_second_dimension file h r :
    fopen env filename = Some file ->
    scan_integer file = Some (h, r) -> 0 <= h <= UINT_MAX ->
    scan_integer r = None ->
    load_failure env filename (text_line "Invalid file format")
| fail_size file h w r :
    fopen env filename = Some file ->
    scan_integers 2 file = Some ([h; w], r) ->
    0 <= h <= UINT_MAX -> 0 <= w <= UINT_MAX -> h = 0 \/ w = 0 ->
    load_failure env filename (text_line "Invalid bitmap size")
| fail_allocation file h w r :
    fopen env filename = Some file ->
    scan_integers 2 file = Some ([h; w], r) ->
    0 < h <= UINT_MAX -> 0 < w <= UINT_MAX ->
    malloc_ok env (sizeof_Bitmap + (w * h) mod (UINT_MAX + 1)) = false ->
    load_failure env filename (text_line "Memory allocation failed")
| fail_pixel file h w r k pixels r' :
    fopen env filename = Some file ->
    scan_integers 2 file = Some ([h; w], r) ->
    0 < h <= UINT_MAX -> 0 < w <= UINT_MAX ->
    malloc_ok env (sizeof_Bitmap + (w * h) mod (UINT_MAX + 1)) = true ->
    Z.of_nat k < (w * h) mod (UINT_MAX + 1) ->
    scan_integers k r = Some (pixels, r') -> Forall is_bit pixels ->
    bad_pixel r' ->
    load_failure env filename (text_line "Invalid pixel value").

(** [env] with the contents of the file [name] replaced. *)
Definition with_file (env : Env) (name content : string) : Env :=
  mkEnv (fun n => if String.eqb n name then Some content else fopen env n)
        (malloc_ok env).

(** The source of the scenarios: its lines, joined by newlines. *)
Definition source (lines : list string) : string := String.concat newline lines.

(** ** Decimal text

    What [%u] prints is read back by the conversions of [fscanf]; the
    definitions below only serve to say so. *)

(** The number that the digits [d] denote, read after the value [acc]. *)
Fixpoint uint_value (d : Decimal.uint) (acc : Z) : Z :=
  match d with
  | Decimal.Nil => acc
  | Decimal.D0 d => uint_value d (10 * acc)
  | Decimal.D1 d => uint_value d (10 * acc + 1)
  | Decimal.D2 d => uint_value d (10 * acc + 2)
  | Decimal.D3 d => uint_value d (10 * acc + 3)
  | Decimal.D4 d => uint_value d (10 * acc + 4)
  | Decimal.D5 d => uint_value d (10 * acc + 5)
  | Decimal.D6 d => uint_value d (10 * acc + 6)
  | Decimal.D7 d => uint_value d (10 * acc + 7)
  | Decimal.D8 d => uint_value d (10 * acc + 8)
  | Decimal.D9 d => uint_value d (10 * acc + 9)
  end.

(** No digit follows: the text is empty or begins with another character. *)
Definition ends_number (s : string) : bool :=
  match s with
  | String c _ => negb (isdigit c)
  | EmptyString => true
  end.

(** A grid written in the file format: height, width and the cells in
    row-major order, in decimal, one space before each cell. *)
Fixpoint cells_text (cells : list bool) : string :=
  match cells with
  | [] => EmptyString
  | c :: cells' =>
      String " " (String (if c then "1" else "0")%char (cells_text cells'))
  end.

Definition grid_text (b : Bitmap) : string :=
  String.append (print_unsigned (height b))
    (String " " (String.append (print_unsigned (width b)) (cells_text (data b)))).

(** * tnine: contacts and keypad queries

    A shallow embedding of [src/example/tnine/tnine.c]. A C string is the
    list of its bytes before the terminator; the global array [contacts]
    with [contact_count] is the list of its first [contact_count] entries,
    passed from function to function; standard input and the two output
    streams are lists of bytes. The functions of [<ctype.h>] are those of
    the C locale, and leave bytes above 127 alone. *)

Module Tnine.

Definition MAX_CONTACTS : nat := 42.
Definition MAX_LENGTH : nat := 102.

Record Contact : Type := mkContact { name : list ascii; number : list ascii }.

Definition NUL : ascii := "000"%char.
Definition LF : ascii := "010"%char.
Definition CR : ascii := "013"%char.

Definition mappedChars : list (list ascii) :=
  list_ascii_of_string <$>
    ["+"; ""; "abc"; "def"; "ghi"; "jkl"; "mno"; "pqrs"; "tuv"; "wxyz"]%string.

(** [mappedChars[i]] for [i] in 0..9. *)
Definition mapped (i : Z) : list ascii := default [] (mappedChars !! Z.to_nat i).

(** [strchr(s, c) != NULL]: [c] occurs in [s], or is its terminator. *)
Definition strchr (s : list ascii) (c : ascii) : bool :=
  existsb (Ascii.eqb c) s || Ascii.eqb c NUL.

(** [tolower] of the C locale on a byte: the capital letters A to Z become
    small, every other byte, also one above 127, is kept. *)
Definition tolower (c : ascii) : ascii :=
  let n := nat_of_ascii c in
  if ((65 <=? n) && (n <=? 90))%nat then ascii_of_nat (n + 32) else c.

Fixpoint to_lower (str : list ascii) : list ascii :=
  match str with
  | [] => []
  | c :: str' => tolower c :: to_lower str'
  end.

(** The loop of [trim] over [len], the length of what is left of [str]. *)
Fixpoint trim_loop (len : nat) (str : list ascii) : list ascii :=
  match len with
  | O => str
  | S len' =>
      match str !! len' with
      | Some c =>
          if Ascii.eqb c LF || Ascii.eqb c CR
          then trim_loop len' (take len' str)
          else str
      | None => str
      end
  end.

Definition trim (str : list ascii) : list ascii := trim_loop (length str) str.

(** ** Reading the contacts *)

(** What a buffer holds as a C string: its bytes before the first [NUL]. *)
Fixpoint c_str (buffer : list ascii) : list ascii :=
  match buffer with
  | [] => []
  | c :: buffer' => if Ascii.eqb c NUL then [] else c :: c_str buffer'
  end.

(** At most [k] bytes of the stream, up to and with the first newline. *)
Fixpoint read_line (k : nat) (stream : list ascii) : list ascii * list ascii :=
  match k, stream with
  | S k', c :: stream' =>
      if Ascii.eqb c LF then ([c], stream')
      else let (line, rest) := read_line k' stream' in (c :: line, rest)
  | _, _ => ([], stream)
  end.

(** [fgets(line, size, stdin)]: [None] for [NULL], at the end of the
    stream. *)
Definition fgets (size : nat) (stream : list ascii) : option (list ascii * list ascii) :=
  match stream with
  | [] => None
  | _ => Some (read_line (size - 1) stream)
  end.

(** The loop of [read_contacts]: the contacts and the rest of the stream. *)
Fixpoint read_loop (fuel : nat) (stdin : list ascii) (contacts : list Contact)
  : outcome (list Contact * list ascii) :=
  if (length contacts <? MAX_CONTACTS)%nat then
    match fuel with
    | O => OutOfFuel
    | S fuel' =>
        match fgets MAX_LENGTH stdin with
        | None => Done (contacts, stdin)
        | Some (line, stdin1) =>
            let line := trim (c_str line) in
            if (length line =? 0)%nat then read_loop fuel' stdin1 contacts
            else
              let name := take (MAX_LENGTH - 1) line in
              match fgets MAX_LENGTH stdin1 with
              | None => Done (contacts, stdin1)
              | Some (line, stdin2) =>
                  let line := trim (c_str line) in
                  if (length line =? 0)%nat then read_loop fuel' stdin2 contacts
                  else
                    let number := take (MAX_LENGTH - 1) line in
                    read_loop fuel' stdin2 (contacts ++ [mkContact name number])
              end
        end
    end
  else Done (contacts, stdin).

Definition read_contacts (stdin : list ascii) : outcome (list Contact * list ascii) :=
  read_loop (S (length stdin)) stdin [].

Fixpoint contacts_to_lower (contacts : list Contact) : list Contact :=
  match contacts with
  | [] => []
  | c :: contacts' =>
      mkContact (to_lower (name c)) (to_lower (number c)) :: contacts_to_lower contacts'
  end.

(** What [printf("%s, %s\n", name, number)] prints. *)
Definition contact_line (c : Contact) : list ascii :=
  name c ++ list_ascii_of_string ", " ++ number c ++ [LF].

Fixpoint printContacts (contacts : list Contact) : list ascii :=
  match contacts with
  | [] => []
  | c :: contacts' => contact_line c ++ printContacts contacts'
  end.

(** ** Matching *)

Fixpoint is_match_complex (str query : list ascii) : bool :=
  match str with
  | [] => match query with [] => true | _ :: _ => false end
  | c :: str' =>
      match query with
      | [] => true
      | q :: query' =>
          if isdigit c then
            if Ascii.eqb c q then is_match_complex str' query'
            else is_match_complex str' query
          else
            let qNum := Z.of_nat (nat_of_ascii q) - 48 in
            if (0 <=? qNum) && (qNum <=? 9) && strchr (mapped qNum) c
            then is_match_complex str' query'
            else is_match_complex str' query
      end
  end.

(** The inner loop of [is_match_unbroken]: what is left of [q] after it. *)
Fixpoint unbroken_scan (s q : list ascii) {struct s} : list ascii :=
  match q, s with
  | qc :: q', sc :: s' =>
      if isdigit sc then
        if Ascii.eqb sc qc then unbroken_scan s' q' else q
      else
        let qNum := Z.of_nat (nat_of_ascii qc) - 48 in
        if (0 <=? qNum) && (qNum <=? 9) && strchr (mapped qNum) sc
        then unbroken_scan s' q'
        else q
  | _, _ => q
  end.

Fixpoint is_match_unbroken (str query : list ascii) : bool :=
  match str with
  | [] => match query with [] => true | _ :: _ => false end
  | _ :: str' =>
      match unbroken_scan str query with
      | [] => true
      | _ :: _ => is_match_unbroken str' query
      end
  end.

(** The loop of [search_contacts]: what it prints and the flag [found]. *)
Fixpoint search_loop (is_match : list ascii -> list ascii -> bool)
         (contacts : list Contact) (query : list ascii) (found : bool)
  : list ascii * bool :=
  match contacts with
  | [] => ([], found)
  | c :: contacts' =>
      if is_match (name c) query || is_match (number c) query then
        let (out, found') := search_loop is_match contacts' query true in
        (contact_line c ++ out, found')
      else search_loop is_match contacts' query found
  end.

(** [is_match] is the value of the global function pointer. *)
Definition search_contacts (is_match : list ascii -> list ascii -> bool)
           (contacts : list Contact) (query : list ascii) : list ascii :=
  let (out, found) := search_loop is_match contacts query false in
  if negb found then out ++ list_ascii_of_string "Not found" ++ [LF] else out.

Fixpoint isValidQuery (query : list ascii) : bool :=
  match query with
  | [] => true
  | c :: query' => if negb (isdigit c) then false else isValidQuery query'
  end.

(** [main]: the exit code, standard output and the error stream. *)
Definition main (argv : list (list ascii)) (stdin : list ascii)
  : outcome (Z * list ascii * list ascii) :=
  let argc := Z.of_nat (length argv) in
  let sflag := 0 in
  let optind := 1 in
  let* (contacts, _) := read_contacts stdin in
  let contacts := contacts_to_lower contacts in
  if argc =? optind then Done (0, printContacts contacts, [])
  else if argc =? optind + 1 then
    match argv !! Z.to_nat optind with
    | None => Undefined
    | Some query =>
        if negb (isValidQuery query)
        then Done (1, [], list_ascii_of_string "Invalid query" ++ [LF])
        else
          let is_match := if sflag =? 0 then is_match_unbroken else is_match_complex in
          Done (0, search_contacts is_match contacts query, [])
    end
  else
    match argv !! 0%nat with
    | None => Undefined
    | Some program =>
        Done (1, [],
              list_ascii_of_string "Usage: " ++ program
              ++ list_ascii_of_string " [-s] [CISLO] <[FILE]" ++ [LF])
    end.

(** ** What matching is about *)

(** The key of the keypad on which a character sits: a digit sits on its own
    key, [+] on 0, the letters on 2 to 9. *)
Definition keypad (c : ascii) : option ascii :=
  if isdigit c then Some c
  else if Ascii.eqb c "+" then Some "0"%char
  else if existsb (Ascii.eqb c) (list_ascii_of_string "abc") then Some "2"%char
  else if existsb (Ascii.eqb c) (list_ascii_of_string "def") then Some "3"%char
  else if existsb (Ascii.eqb c) (list_ascii_of_string "ghi") then Some "4"%char
  else if existsb (Ascii.eqb c) (list_ascii_of_string "jkl") then Some "5"%char
  else if existsb (Ascii.eqb c) (list_ascii_of_string "mno") then Some "6"%char
  else if existsb (Ascii.eqb c) (list_ascii_of_string "pqrs") then Some "7"%char
  else if existsb (Ascii.eqb c) (list_ascii_of_string "tuv") then Some "8"%char
  else if existsb (Ascii.eqb c) (list_ascii_of_string "wxyz") then Some "9"%char
  else None.

(** The test that both matchers make on a character of the text and a
    character of the query. *)
Definition key_test (c q : ascii) : bool :=
  if isdigit c then Ascii.eqb c q
  else
    let qNum := Z.of_nat (nat_of_ascii q) - 48 in
    (0 <=? qNum) && (qNum <=? 9) && strchr (mapped qNum) c.

(** Every byte. *)
Definition all_ascii : list ascii := ascii_of_nat <$> seq 0 256.

(** A text for the standard input: a name and a number per contact, each
    on a line of its own that ends with [eol]. *)
Fixpoint contacts_lines (eol : list ascii) (contacts : list Contact) : list ascii :=
  match contacts with
  | [] => []
  | c :: contacts' =>
      name c ++ eol ++ number c ++ eol ++ contacts_lines eol contacts'
  end.

(** A field that fits a line that ends with [eol]: not empty, with no
    [NUL], newline or carriage return in it, and with [eol] at most 101
    bytes long. *)
Definition plain_field (eol s : list ascii) : Prop :=
  s <> [] /\ (length s + length eol <= 101)%nat /\
  Forall (fun c => c <> NUL /\ c <> LF /\ c <> CR) s.

(** A field as [read_contacts] stores it: not empty, at most 101 bytes, no
    [NUL] and no newline in it, no carriage return at its end. *)
Definition stored_field (s : list ascii) : Prop :=
  s <> [] /\ (length s <= 101)%nat /\
  Forall (fun c => c <> NUL /\ c <> LF) s /\
  forall c, list.last s = Some c -> c <> CR.

(** The contact matches the query, by its name or by its number. *)
Definition contact_matches (is_match : list ascii -> list ascii -> bool)
           (query : list ascii) (c : Contact) : bool :=
  is_match (name c) query || is_match (number c) query.

End Tnine.

(** * Proofs *)

(** ** Unsigned arithmetic within range *)

Lemma wrap_small (z : Z) : 0 <= z <= UINT_MAX -> wrap z = z.
Proof. intros H. unfold wrap, UINT_MAX in *. apply Z.mod_small. lia. Qed.

Lemma uadd_small (a b : Z) : 0 <= a + b <= UINT_MAX -> uadd a b = a + b.
Proof. apply wrap_small. Qed.

Lemma usub_small (a b : Z) : 0 <= a - b <= UINT_MAX -> usub a b = a - b.
Proof. apply wrap_small. Qed.

Lemma umul_small (a b : Z) : 0 <= a * b <= UINT_MAX -> umul a b = a * b.
Proof. apply wrap_small. Qed.

Lemma valid_grid_width (b : Bitmap) : valid_grid b -> 0 < width b <= UINT_MAX.
Proof. intros (Hw & Hh & _ & Hm). split; [easy | nia]. Qed.

Lemma valid_grid_height (b : Bitmap) : valid_grid b -> 0 < height b <= UINT_MAX.
Proof. intros (Hw & Hh & _ & Hm). split; [easy | nia]. Qed.

Lemma valid_grid_index (b : Bitmap) (x y : Z) :
  valid_grid b -> 0 <= x < width b -> 0 <= y < height b ->
  0 <= y * width b + x < width b * height b.
Proof. intros (Hw & Hh & _ & Hm) Hx Hy. nia. Qed.

(** ** The end of a run *)

Lemma run_end_ge (n : nat) (b : Bitmap) (y e : Z) : e <= run_end n b y e.
Proof.
  revert e. induction n as [|n IH]; intros e; simpl; [lia|].
  destruct ((e + 1 <? width b) && cell b (e + 1) y); [|lia].
  specialize (IH (e + 1)). lia.
Qed.

Lemma run_end_lt (n : nat) (b : Bitmap) (y e : Z) :
  e < width b -> run_end n b y e < width b.
Proof.
  revert e. induction n as [|n IH]; intros e He; simpl; [lia|].
  destruct (e + 1 <? width b) eqn:E; simpl; [|lia].
  destruct (cell b (e + 1) y); [|lia].
  apply IH. lia.
Qed.

Lemma run_end_set (n : nat) (b : Bitmap) (y e x : Z) :
  e < x <= run_end n b y e -> cell b x y = true.
Proof.
  revert e. induction n as [|n IH]; intros e; simpl; [lia|].
  destruct (e + 1 <? width b) eqn:E; simpl; [|lia].
  destruct (cell b (e + 1) y) eqn:C; [|lia].
  intros Hx. destruct (Z.eq_dec x (e + 1)) as [->|Hne]; [exact C|].
  apply (IH (e + 1)). lia.
Qed.

Lemma run_end_stop (n : nat) (b : Bitmap) (y e : Z) :
  e < width b -> width b - 1 - e <= Z.of_nat n ->
  run_end n b y e = width b - 1 \/ cell b (run_end n b y e + 1) y = false.
Proof.
  revert e. induction n as [|n IH]; intros e He Hn; simpl; [left; lia|].
  destruct (e + 1 <? width b) eqn:E; simpl; [|left; lia].
  destruct (cell b (e + 1) y) eqn:C; [|right; exact C].
  apply IH; lia.
Qed.

(** The run that starts at a set cell [x] and ends where [run_end] says. *)
Lemma run_end_is_run (n : nat) (b : Bitmap) (y x : Z) :
  0 <= y < height b -> 0 <= x < width b -> cell b x y = true ->
  is_run b y x (run_end n b y x).
Proof.
  intros Hy Hx Hc.
  pose proof (run_end_ge n b y x). pose proof (run_end_lt n b y x).
  repeat split; try lia.
  intros x' Hx'. destruct (Z.eq_dec x' x) as [->|Hne]; [exact Hc|].
  apply (run_end_set n b y x). lia.
Qed.

(** No run that starts at [x] goes past [run_end]. *)
Lemma run_end_bounds_runs (n : nat) (b : Bitmap) (y x e : Z) :
  width b - 1 - x <= Z.of_nat n -> is_run b y x e -> e <= run_end n b y x.
Proof.
  intros Hn (Hy & Hs & Hse & He & Hall).
  destruct (run_end_stop n b y x ltac:(lia) Hn) as [Hw|Hc]; [lia|].
  destruct (Z_le_gt_dec e (run_end n b y x)) as [|Hgt]; [easy|].
  pose proof (run_end_ge n b y x).
  rewrite Hall in Hc by lia. discriminate.
Qed.

(** ** Steps of the reference scan *)

Lemma naive_step_not_start (b : Bitmap) (y x : Z) (o : option Line) :
  starts_run b y x = false -> naive_step b y o x = o.
Proof. intros H. unfold naive_step. now rewrite H. Qed.

Lemma naive_fold_not_start (b : Bitmap) (y : Z) (xs : list Z) (o : option Line) :
  Forall (fun x => starts_run b y x = false) xs ->
  fold_left (naive_step b y) xs o = o.
Proof.
  intros H. revert o. induction H as [|x xs Hx _ IH]; intros o; simpl; [easy|].
  now rewrite naive_step_not_start.
Qed.

Lemma naive_step_short (b : Bitmap) (y x : Z) (l : Line) :
  x < width b -> width b - x <= line_length l ->
  naive_step b y (Some l) x = Some l.
Proof.
  intros Hx H. unfold naive_step.
  destruct (starts_run b y x); [|easy].
  pose proof (run_end_lt (Z.to_nat (width b)) b y x Hx) as He.
  destruct (_ <? _) eqn:E; [|easy].
  apply Z.ltb_lt in E. unfold line_length at 2 in E. simpl in E. lia.
Qed.

Lemma naive_fold_short (b : Bitmap) (y : Z) (xs : list Z) (x : Z) (l : Line) :
  Forall (fun x' => x <= x' < width b) xs -> width b - x <= line_length l ->
  fold_left (naive_step b y) xs (Some l) = Some l.
Proof.
  intros H Hl. induction H as [|x' xs Hx' _ IH]; simpl; [easy|].
  rewrite naive_step_short by lia. exact IH.
Qed.

Lemma naive_step_good (b : Bitmap) (y x : Z) (o : option Line) :
  0 <= x < width b -> good_best b o -> good_best b (naive_step b y o x).
Proof.
  intros Hx Hg l. unfold naive_step.
  pose proof (run_end_lt (Z.to_nat (width b)) b y x ltac:(lia)).
  pose proof (run_end_ge (Z.to_nat (width b)) b y x).
  destruct (starts_run b y x); [|apply Hg].
  destruct o as [l0|].
  - destruct (_ <? _); [|apply Hg].
    intros [= <-]. unfold line_length. simpl. lia.
  - intros [= <-]. unfold line_length. simpl. lia.
Qed.

Lemma naive_step_len (b : Bitmap) (y x : Z) (o : option Line) :
  starts_run b y x = true ->
  run_end (Z.to_nat (width b)) b y x - x + 1 <= best_len (naive_step b y o x).
Proof.
  intros S. unfold naive_step. rewrite S.
  destruct o as [l0|]; simpl.
  - destruct (_ <? _) eqn:E; simpl.
    + unfold line_length. simpl. lia.
    + apply Z.ltb_ge in E. unfold line_length at 1 in E. simpl in E. lia.
  - unfold line_length. simpl. lia.
Qed.

Lemma naive_row_good (b : Bitmap) (y : Z) (o : option Line) :
  good_best b o -> good_best b (naive_row b o y).
Proof.
  unfold naive_row.
  assert (G : forall xs, Forall (fun x => 0 <= x < width b) xs ->
              forall o, good_best b o -> good_best b (fold_left (naive_step b y) xs o)).
  { intros xs H. induction H as [|x xs Hx _ IH]; intros o' Hg; simpl; [easy|].
    apply IH. now apply naive_step_good. }
  apply G. apply Forall_seqZ. lia.
Qed.

(** ** The best line so far and the locals of the source *)

Lemma repr_update (b : Bitmap) (y x : Z) (o : option Line) :
  good_best b o -> starts_run b y x = true ->
  (if (length_final (repr o) =? 0)
      || (length_final (repr o) <? run_end (Z.to_nat (width b)) b y x - x + 1)
   then mkBest (Some (mkPoint x y))
               (Some (mkPoint (run_end (Z.to_nat (width b)) b y x) y))
               (run_end (Z.to_nat (width b)) b y x - x + 1)
   else repr o)
  = repr (naive_step b y o x).
Proof.
  intros Hg S. unfold naive_step. rewrite S.
  destruct o as [l|]; simpl; [|reflexivity].
  specialize (Hg l eq_refl).
  destruct (line_length l =? 0) eqn:Z0; [apply Z.eqb_eq in Z0; lia|]. simpl.
  unfold line_length at 2. simpl.
  destruct (_ <? _); reflexivity.
Qed.

Lemma naive_hline_good (b : Bitmap) : good_best b (naive_hline b).
Proof.
  unfold naive_hline.
  assert (G : forall ys o, good_best b o -> good_best b (fold_left (naive_row b) ys o)).
  { induction ys as [|y ys IH]; intros o Hg; simpl; [easy|].
    apply IH. now apply naive_row_good. }
  apply G. intros l [=].
Qed.

(** ** The search against the reference scan

    The loops of the source, on a valid grid, compute the folds of the
    reference scan. *)

Section Refinement.

Variable b : Bitmap.
Hypothesis Hv : valid_grid b.

(** On a valid grid the read of the source is defined and is the cell. *)
Lemma read_data_cell (x y : Z) :
  0 <= x < width b -> 0 <= y < height b ->
  read_data b (uadd (umul y (width b)) x) = Done (cell b x y).
Proof.
  intros Hx Hy.
  pose proof (valid_grid_index b x y Hv Hx Hy) as Hi.
  destruct Hv as (Hw & Hh & Hl & Hm).
  assert (Hyw : 0 <= y * width b <= UINT_MAX) by nia.
  rewrite (umul_small _ _ Hyw), uadd_small by lia.
  unfold read_data, cell.
  destruct (data b !! Z.to_nat (y * width b + x)) as [v|] eqn:E; [reflexivity|].
  apply lookup_ge_None_1 in E. lia.
Qed.

(** The loop over [i] computes the end of the run. *)

Lemma extend_loop_run_end (fuel n : nat) (y x i : Z) :
  0 <= y < height b -> 1 <= i <= width b ->
  width b - i <= Z.of_nat fuel -> width b - i <= Z.of_nat n ->
  extend_loop fuel b y x (mkPoint (i - 1) y) i
  = Done (if run_end n b y (i - 1) + 1 <? width b
          then run_end n b y (i - 1) + 1 else x,
          mkPoint (run_end n b y (i - 1)) y).
Proof.
  intros Hy. pose proof (valid_grid_width b Hv) as Hw.
  revert n i. induction fuel as [|fuel IH]; intros n i Hi Hf Hn.
  - assert (i = width b) as -> by lia.
    simpl. rewrite Z.ltb_irrefl.
    assert (run_end n b y (width b - 1) = width b - 1) as ->.
    { destruct n; simpl; [easy|].
      replace (width b - 1 + 1) with (width b) by lia.
      now rewrite Z.ltb_irrefl. }
    replace (width b - 1 + 1) with (width b) by lia.
    now rewrite Z.ltb_irrefl.
  - simpl. destruct (i <? width b) eqn:E.
    + apply Z.ltb_lt in E.
      rewrite read_data_cell by (easy || lia). simpl.
      destruct n as [|n]; [lia|]. simpl.
      replace (i - 1 + 1) with i by lia.
      apply Z.ltb_lt in E. rewrite E. simpl. apply Z.ltb_lt in E.
      destruct (cell b i y) eqn:C; simpl.
      * rewrite uadd_small by lia.
        specialize (IH n (i + 1)).
        replace (i + 1 - 1) with i in IH by lia.
        apply IH; lia.
      * replace (i - 1 + 1) with i by lia.
        apply Z.ltb_lt in E. now rewrite E.
    + apply Z.ltb_ge in E. assert (i = width b) as -> by lia.
      assert (run_end n b y (width b - 1) = width b - 1) as ->.
      { destruct n; simpl; [easy|].
        replace (width b - 1 + 1) with (width b) by lia.
        now rewrite Z.ltb_irrefl. }
      replace (width b - 1 + 1) with (width b) by lia.
      now rewrite Z.ltb_irrefl.
Qed.

(** The column loop against the reference scan of a row. *)
Lemma column_loop_naive (fuel : nat) (y x : Z) (o : option Line) :
  0 <= y < height b -> 0 <= x <= width b -> good_best b o ->
  (x = 0 \/ cell b (x - 1) y = false \/ width b - x <= best_len o) ->
  width b - x <= Z.of_nat fuel ->
  column_loop (fun _ _ => true) fuel b y x (repr o)
  = Done (repr (fold_left (naive_step b y) (seqZ x (width b - x)) o)).
Proof.
  intros Hy. pose proof (valid_grid_width b Hv) as Hw.
  revert x o. induction fuel as [|fuel IH]; intros x o Hx Hg Hpos Hf.
  - assert (x = width b) as -> by lia.
    simpl. rewrite seqZ_nil by lia. simpl.
    destruct (_ <? _) eqn:E; [|reflexivity].
    apply Z.ltb_lt in E.
    assert (0 <= best_len o <= width b).
    { destruct o as [l|]; simpl; [specialize (Hg l eq_refl); lia|lia]. }
    replace (length_final (repr o)) with (best_len o) in E by now destruct o.
    rewrite usub_small in E by lia. lia.
  - assert (HL : 0 <= best_len o <= width b).
    { destruct o as [l|]; simpl; [specialize (Hg l eq_refl); lia|lia]. }
    assert (HLr : length_final (repr o) = best_len o) by now destruct o.
    cbn [column_loop]. rewrite HLr, usub_small by lia.
    destruct (x <? width b - best_len o) eqn:E.
    + apply Z.ltb_lt in E.
      rewrite read_data_cell by (easy || lia). cbn [obind].
      rewrite seqZ_cons by lia. cbn [fold_left].
      replace (Z.succ x) with (x + 1) by lia.
      replace (Z.pred (width b - x)) with (width b - (x + 1)) by lia.
      assert (S : starts_run b y x = cell b x y).
      { unfold starts_run. destruct Hpos as [->|[C|L]]; [| |lia].
        - simpl. now rewrite andb_true_r.
        - rewrite C, andb_false_r. simpl. now rewrite andb_true_r. }
      destruct (cell b x y) eqn:C.
      * rewrite uadd_small by lia.
        pose proof (extend_loop_run_end (Z.to_nat (width b)) (Z.to_nat (width b))
                      y x (x + 1) Hy ltac:(lia) ltac:(lia) ltac:(lia)) as HE.
        replace (x + 1 - 1) with x in HE by lia. rewrite HE. clear HE.
        cbn [obind].
        set (e := run_end (Z.to_nat (width b)) b y x).
        pose proof (run_end_ge (Z.to_nat (width b)) b y x) as Hge.
        pose proof (run_end_lt (Z.to_nat (width b)) b y x ltac:(lia)) as Hlt.
        pose proof (run_end_stop (Z.to_nat (width b)) b y x ltac:(lia) ltac:(lia))
          as Hstop.
        fold e in Hge, Hlt, Hstop.
        assert (Hlen : hline_length (mkPoint x y) (mkPoint e y) = e - x + 1).
        { unfold hline_length. simpl. rewrite usub_small, uadd_small; lia. }
        rewrite Hlen, <- HLr.
        pose proof (repr_update b y x o Hg S) as Hup. fold e in Hup.
        rewrite Hup. clear Hup.
        pose proof (naive_step_len b y x o S) as Hbl. fold e in Hbl.
        pose proof (naive_step_good b y x o ltac:(lia) Hg) as Hg'.
        destruct (e + 1 <? width b) eqn:Ee.
        -- apply Z.ltb_lt in Ee. rewrite uadd_small by lia.
           replace (e + 1 + 1) with (e + 2) by lia.
           rewrite IH; try lia; try easy.
           2:{ right. left. replace (e + 2 - 1) with (e + 1) by lia.
               destruct Hstop as [Hs|Hs]; [lia|exact Hs]. }
           f_equal. f_equal.
           replace (width b - (x + 1)) with ((e + 1 - x) + (width b - (e + 2))) by lia.
           rewrite seqZ_app by lia. rewrite fold_left_app.
           replace (x + 1 + (e + 1 - x)) with (e + 2) by lia.
           rewrite (naive_fold_not_start b y (seqZ (x + 1) (e + 1 - x))); [reflexivity|].
           apply Forall_seqZ. intros x' Hx'. unfold starts_run.
           destruct (Z.eq_dec x' (e + 1)) as [->|Hne].
           ++ destruct Hstop as [Hs|Hs]; [lia|]. now rewrite Hs.
           ++ assert (cell b (x' - 1) y = true) as ->.
              { destruct (Z.eq_dec (x' - 1) x) as [->|Hn2]; [exact C|].
                apply (run_end_set (Z.to_nat (width b)) b y x). fold e. lia. }
              assert ((0 <? x') = true) as -> by (apply Z.ltb_lt; lia).
              simpl. now rewrite andb_false_r.
        -- apply Z.ltb_ge in Ee. rewrite uadd_small by lia.
           rewrite IH; try lia; try easy.
      * rewrite uadd_small by lia. rewrite naive_step_not_start by exact S.
        rewrite IH; try lia; try easy.
        right. left. replace (x + 1 - 1) with x by lia. exact C.
    + apply Z.ltb_ge in E. f_equal. f_equal.
      destruct (Z.eq_dec x (width b)) as [->|Hne].
      * rewrite seqZ_nil by lia. reflexivity.
      * destruct o as [l|]; simpl in E, HL; [|lia].
        symmetry. apply (naive_fold_short b y _ x).
        -- apply Forall_seqZ. lia.
        -- lia.
Qed.

(** The row loop against the reference scan of the rows. *)
Lemma row_loop_naive (fuel : nat) (y : Z) (o : option Line) :
  0 <= y <= height b -> good_best b o ->
  height b - y <= Z.of_nat fuel ->
  row_loop (fun _ _ => true) fuel b y (repr o)
  = Done (repr (fold_left (naive_row b) (seqZ y (height b - y)) o)).
Proof.
  pose proof (valid_grid_width b Hv) as Hw.
  pose proof (valid_grid_height b Hv) as Hh.
  revert y o. induction fuel as [|fuel IH]; intros y o Hy Hg Hf.
  - assert (y = height b) as -> by lia.
    simpl. rewrite Z.ltb_irrefl, seqZ_nil by lia. reflexivity.
  - cbn [row_loop]. destruct (y <? height b) eqn:E.
    + apply Z.ltb_lt in E.
      rewrite (column_loop_naive (Z.to_nat (width b)) y 0 o ltac:(lia) ltac:(lia) Hg
                 ltac:(now left) ltac:(lia)).
      cbn [obind]. rewrite Z.sub_0_r. fold (naive_row b o y).
      rewrite uadd_small by lia.
      rewrite (IH (y + 1) (naive_row b o y) ltac:(lia)
                 (naive_row_good b y o Hg) ltac:(lia)).
      rewrite (seqZ_cons y) by lia. cbn [fold_left].
      replace (Z.succ y) with (y + 1) by lia.
      replace (Z.pred (height b - y)) with (height b - (y + 1)) by lia.
      reflexivity.
    + apply Z.ltb_ge in E. rewrite seqZ_nil by lia. reflexivity.
Qed.

(** The search returns what the reference scan computes. *)
Lemma find_hline_naive : find_hline b = Done (naive_hline b).
Proof.
  pose proof (valid_grid_height b Hv) as Hh.
  unfold find_hline, find_hline_monitored.
  change (mkBest None None 0) with (repr None).
  assert (Hn : good_best b None) by (intros l [=]).
  rewrite (row_loop_naive (Z.to_nat (height b)) 0 None ltac:(lia) Hn ltac:(lia)).
  cbn [obind]. rewrite Z.sub_0_r. fold (naive_hline b).
  pose proof (naive_hline_good b) as Hg.
  destruct (naive_hline b) as [l|]; simpl; [|reflexivity].
  specialize (Hg l eq_refl).
  destruct (line_length l =? 0) eqn:Z0; [apply Z.eqb_eq in Z0; lia|].
  simpl. now destruct l.
Qed.

End Refinement.

(** ** The invariant of the reference scan *)

Lemma before_next (y' s y x : Z) :
  before y' s y (x + 1) <-> before y' s y x \/ (y' = y /\ s = x).
Proof. unfold before. lia. Qed.

Lemma is_run_start_set (b : Bitmap) (y s e : Z) :
  is_run b y s e -> cell b s y = true.
Proof. intros (_ & _ & Hse & _ & Hall). apply Hall. lia. Qed.

Lemma is_run_extend_left (b : Bitmap) (y s e : Z) :
  is_run b y s e -> 0 < s -> cell b (s - 1) y = true -> is_run b y (s - 1) e.
Proof.
  intros (Hy & Hs & Hse & He & Hall) H0 Hc. repeat split; try lia.
  intros x Hx. destruct (Z.eq_dec x (s - 1)) as [->|Hne]; [exact Hc|].
  apply Hall. lia.
Qed.

Lemma starts_run_false (b : Bitmap) (y x : Z) :
  starts_run b y x = false -> cell b x y = true ->
  0 < x /\ cell b (x - 1) y = true.
Proof.
  unfold starts_run. intros H C. rewrite C in H. simpl in H.
  apply negb_false_iff, andb_true_iff in H as [H0 H1].
  apply Z.ltb_lt in H0. easy.
Qed.

Lemma starts_run_true (b : Bitmap) (y x : Z) :
  starts_run b y x = true -> 0 <= x ->
  cell b x y = true /\ (x = 0 \/ cell b (x - 1) y = false).
Proof.
  unfold starts_run. intros H Hx. apply andb_true_iff in H as [C H].
  split; [exact C|].
  apply negb_true_iff, andb_false_iff in H as [H|H].
  - apply Z.ltb_ge in H. left. lia.
  - now right.
Qed.

Lemma candidate_maximal (b : Bitmap) (y x : Z) :
  0 <= y < height b -> 0 <= x < width b -> starts_run b y x = true ->
  maximal_run b y x (run_end (Z.to_nat (width b)) b y x).
Proof.
  intros Hy Hx S. destruct (starts_run_true b y x S ltac:(lia)) as [C L].
  split; [now apply run_end_is_run|]. split; [exact L|].
  apply run_end_stop; lia.
Qed.

Lemma naive_step_invariant (b : Bitmap) (y x : Z) (o : option Line) :
  0 <= y < height b -> 0 <= x < width b ->
  first_longest_before b y x o ->
  first_longest_before b y (x + 1) (naive_step b y o x).
Proof.
  intros Hy Hx Inv. unfold naive_step.
  destruct (starts_run b y x) eqn:S.
  - pose proof (candidate_maximal b y x Hy Hx S) as Hmax.
    set (E := run_end (Z.to_nat (width b)) b y x) in *.
    assert (Hat : forall e, is_run b y x e -> e <= E).
    { intros e0 Hr. apply run_end_bounds_runs; [lia|exact Hr]. }
    destruct o as [l|].
    + destruct Inv as (Hh & Hm & Hb & Hall).
      unfold line_length at 2. simpl.
      destruct (line_length l <? E - x + 1) eqn:Cmp.
      * apply Z.ltb_lt in Cmp. simpl. repeat split; try apply Hmax.
        -- unfold before. lia.
        -- intros y' s e0 Hr Hbf. unfold line_length. simpl.
           apply before_next in Hbf as [Hbf|[-> ->]].
           ++ left. destruct (Hall y' s e0 Hr Hbf) as [H|[H _]]; lia.
           ++ specialize (Hat e0 Hr). unfold not_after. lia.
      * apply Z.ltb_ge in Cmp. repeat split; try apply Hm; try easy.
        -- unfold before in *. lia.
        -- intros y' s e0 Hr Hbf.
           apply before_next in Hbf as [Hbf|[-> ->]]; [now apply Hall|].
           specialize (Hat e0 Hr). unfold not_after, before in *. lia.
    + simpl in *. repeat split; try apply Hmax.
      * unfold before. lia.
      * intros y' s e0 Hr Hbf. unfold line_length. simpl.
        apply before_next in Hbf as [Hbf|[-> ->]].
        -- now destruct (Inv y' s e0 Hr).
        -- specialize (Hat e0 Hr). unfold not_after. lia.
  - destruct o as [l|].
    + destruct Inv as (Hh & Hm & Hb & Hall). repeat split; try apply Hm; try easy.
      * unfold before in *. lia.
      * intros y' s e0 Hr Hbf.
        apply before_next in Hbf as [Hbf|[-> ->]]; [now apply Hall|].
        destruct (starts_run_false b y x S (is_run_start_set b y x e0 Hr)) as [H0 C].
        pose proof (is_run_extend_left b y x e0 Hr H0 C) as Hr'.
        destruct (Hall y (x - 1) e0 Hr' ltac:(unfold before; lia)) as [H|[H _]]; lia.
    + simpl in *. intros y' s e0 Hr Hbf.
      apply before_next in Hbf as [Hbf|[-> ->]]; [now apply (Inv y' s e0)|].
      destruct (starts_run_false b y x S (is_run_start_set b y x e0 Hr)) as [H0 C].
      pose proof (is_run_extend_left b y x e0 Hr H0 C) as Hr'.
      apply (Inv y (x - 1) e0 Hr'). unfold before. lia.
Qed.

Lemma naive_columns_invariant (b : Bitmap) (y : Z) (n : nat) :
  0 <= y < height b ->
  forall x o, 0 <= x -> x + Z.of_nat n <= width b ->
    first_longest_before b y x o ->
    first_longest_before b y (x + Z.of_nat n)
      (fold_left (naive_step b y) (seqZ x (Z.of_nat n)) o).
Proof.
  intros Hy. induction n as [|n IH]; intros x o Hx Hn Inv.
  - simpl. now rewrite Z.add_0_r.
  - rewrite seqZ_cons by lia. cbn [fold_left].
    replace (Z.succ x) with (x + 1) by lia.
    replace (Z.pred (Z.of_nat (S n))) with (Z.of_nat n) by lia.
    replace (x + Z.of_nat (S n)) with (x + 1 + Z.of_nat n) by lia.
    apply IH; [lia|lia|]. apply naive_step_invariant; [easy|lia|easy].
Qed.

Lemma naive_row_invariant (b : Bitmap) (y : Z) (o : option Line) :
  0 <= y < height b -> 0 <= width b ->
  first_longest_before b y 0 o ->
  first_longest_before b (y + 1) 0 (naive_row b o y).
Proof.
  intros Hy Hw Inv.
  pose proof (naive_columns_invariant b y (Z.to_nat (width b)) Hy 0 o
                ltac:(lia) ltac:(lia) Inv) as H.
  rewrite Z2Nat.id in H by lia. simpl in H. fold (naive_row b o y) in H.
  destruct (naive_row b o y) as [l|].
  - destruct H as (Hh & Hm & Hb & Hall). repeat split; try apply Hm; try easy.
    + unfold before in *. lia.
    + intros y' s e Hr Hbf. apply Hall; [easy|].
      destruct Hr as (_ & Hs & Hse & He & _). unfold before in *. lia.
  - simpl in *. intros y' s e Hr Hbf. apply (H y' s e Hr).
    destruct Hr as (_ & Hs & Hse & He & _). unfold before in *. lia.
Qed.

Lemma naive_rows_invariant (b : Bitmap) (n : nat) :
  0 <= width b ->
  forall y o, 0 <= y -> y + Z.of_nat n <= height b ->
    first_longest_before b y 0 o ->
    first_longest_before b (y + Z.of_nat n) 0
      (fold_left (naive_row b) (seqZ y (Z.of_nat n)) o).
Proof.
  intros Hw. induction n as [|n IH]; intros y o Hy Hn Inv.
  - simpl. now rewrite Z.add_0_r.
  - rewrite seqZ_cons by lia. cbn [fold_left].
    replace (Z.succ y) with (y + 1) by lia.
    replace (Z.pred (Z.of_nat (S n))) with (Z.of_nat n) by lia.
    replace (y + Z.of_nat (S n)) with (y + 1 + Z.of_nat n) by lia.
    apply IH; [lia|lia|]. apply naive_row_invariant; [lia|easy|easy].
Qed.

(** After the whole scan every run of the grid has been seen. *)
Lemma naive_hline_invariant (b : Bitmap) :
  0 <= width b -> 0 <= height b ->
  first_longest_before b (height b) 0 (naive_hline b).
Proof.
  intros Hw Hh.
  pose proof (naive_rows_invariant b (Z.to_nat (height b)) Hw 0 None
                ltac:(lia) ltac:(lia)) as H.
  rewrite Z2Nat.id in H by lia. simpl in H. apply H.
  intros y' s e (Hy & Hs & _) Hbf. unfold before in Hbf. lia.
Qed.

Lemma run_before_end (b : Bitmap) (y s e : Z) :
  is_run b y s e -> before y s (height b) 0.
Proof. intros (Hy & _). unfold before. lia. Qed.

Lemma set_cell_is_run (b : Bitmap) (x y : Z) :
  0 <= x < width b -> 0 <= y < height b -> cell b x y = true -> is_run b y x x.
Proof.
  intros Hx Hy C. repeat split; try lia.
  intros x' Hx'. now replace x' with x by lia.
Qed.

(** What the reference scan returns. *)
Lemma naive_hline_none (b : Bitmap) :
  0 <= width b -> 0 <= height b ->
  (naive_hline b = None <-> ~ has_set_cell b).
Proof.
  intros Hw Hh. pose proof (naive_hline_invariant b Hw Hh) as Inv. split.
  - intros HN (x & y & Hx & Hy & C). rewrite HN in Inv. simpl in Inv.
    apply (Inv y x x (set_cell_is_run b x y Hx Hy C)).
    unfold before. lia.
  - intros Hno. destruct (naive_hline b) as [l|]; [|reflexivity].
    exfalso. apply Hno. destruct Inv as (_ & (Hr & _) & _).
    pose proof (is_run_start_set _ _ _ _ Hr) as C.
    destruct Hr as (Hy & Hs & Hse & He & _).
    exists (pt_x (l_start l)), (pt_y (l_start l)). repeat split; try lia. exact C.
Qed.

Lemma naive_hline_some (b : Bitmap) (l : Line) :
  0 <= width b -> 0 <= height b -> naive_hline b = Some l ->
  pt_y (l_end l) = pt_y (l_start l) /\
  maximal_run b (pt_y (l_start l)) (pt_x (l_start l)) (pt_x (l_end l)) /\
  forall y s e, is_run b y s e ->
    e - s + 1 < line_length l \/
    (e - s + 1 = line_length l /\
     not_after (pt_y (l_start l)) (pt_x (l_start l)) y s).
Proof.
  intros Hw Hh HS. pose proof (naive_hline_invariant b Hw Hh) as Inv.
  rewrite HS in Inv. destruct Inv as (Hh' & Hm & _ & Hall).
  repeat split; try apply Hm; try easy.
  intros y s e Hr. apply Hall; [easy|]. now apply (run_before_end b y s e).
Qed.

(** ** The bound on [length_final] *)

Lemma extend_loop_safe (fuel : nat) (b : Bitmap) (y x : Z) (e : Point) (i : Z) :
  width b <= UINT_MAX -> 0 <= x -> x <= pt_x e -> pt_x e < i -> i <= width b ->
  width b - i <= Z.of_nat fuel ->
  safe (fun p => x <= fst p < width b /\ x <= pt_x (snd p) < width b)
       (extend_loop fuel b y x e i).
Proof.
  intros Hw Hx. revert e i. induction fuel as [|fuel IH]; intros e i He Hei Hi Hf.
  - assert (i = width b) as -> by lia. simpl. rewrite Z.ltb_irrefl. simpl. lia.
  - cbn [extend_loop]. destruct (i <? width b) eqn:E.
    + apply Z.ltb_lt in E.
      destruct (read_data b (uadd (umul y (width b)) i)) as [v| | |] eqn:R;
        try (unfold read_data in R; destruct (data b !! _); discriminate);
        cbn [obind safe]; [|easy].
      destruct v; cbn [negb].
      * rewrite uadd_small by lia. apply IH; simpl; lia.
      * simpl. lia.
    + simpl. apply Z.ltb_ge in E. lia.
Qed.

Lemma column_loop_checked (fuel : nat) (b : Bitmap) (y x : Z) (st : Best) :
  width b <= UINT_MAX -> 0 <= x -> 0 <= length_final st <= width b ->
  width b - x <= Z.of_nat fuel ->
  column_loop (fun w l => l <=? w) fuel b y x st
  = column_loop (fun _ _ => true) fuel b y x st /\
  safe (fun st' => 0 <= length_final st' <= width b)
       (column_loop (fun w l => l <=? w) fuel b y x st).
Proof.
  intros Hw. revert x st. induction fuel as [|fuel IH]; intros x st Hx HL Hf.
  - simpl. assert ((length_final st <=? width b) = true) as -> by (apply Z.leb_le; lia).
    rewrite usub_small by lia.
    destruct (x <? _) eqn:E; [apply Z.ltb_lt in E; lia|]. simpl. easy.
  - cbn [column_loop].
    assert ((length_final st <=? width b) = true) as -> by (apply Z.leb_le; lia).
    rewrite usub_small by lia.
    destruct (x <? _) eqn:E; [|simpl; easy].
    apply Z.ltb_lt in E.
    destruct (read_data b (uadd (umul y (width b)) x)) as [v| | |] eqn:R;
      try (unfold read_data in R; destruct (data b !! _); discriminate);
      cbn [obind safe]; [|easy].
    destruct v.
    + rewrite uadd_small by lia.
      pose proof (extend_loop_safe (Z.to_nat (width b)) b y x (mkPoint x y) (x + 1)
                    Hw Hx ltac:(simpl; lia) ltac:(simpl; lia) ltac:(lia) ltac:(lia))
        as HS.
      destruct (extend_loop _ b y x _ _) as [[x' e]| | |]; cbn [obind safe] in *;
        try easy.
      simpl in HS.
      assert (Hlen : hline_length (mkPoint x y) e = pt_x e - x + 1).
      { unfold hline_length. simpl. rewrite usub_small, uadd_small; lia. }
      rewrite Hlen, uadd_small by lia.
      apply IH; [lia| |lia].
      destruct (_ || _); simpl; lia.
    + rewrite uadd_small by lia. apply IH; lia.
Qed.

Lemma row_loop_checked (fuel : nat) (b : Bitmap) (y : Z) (st : Best) :
  width b <= UINT_MAX -> height b <= UINT_MAX -> 0 <= width b -> 0 <= y ->
  0 <= length_final st <= width b -> height b - y <= Z.of_nat fuel ->
  row_loop (fun w l => l <=? w) fuel b y st
  = row_loop (fun _ _ => true) fuel b y st /\
  safe (fun _ => True) (row_loop (fun w l => l <=? w) fuel b y st).
Proof.
  intros Hw Hh Hw0. revert y st. induction fuel as [|fuel IH]; intros y st Hy HL Hf.
  - simpl. destruct (y <? _) eqn:E; [apply Z.ltb_lt in E; lia|]. simpl. easy.
  - cbn [row_loop]. destruct (y <? _) eqn:E; [|simpl; easy].
    apply Z.ltb_lt in E.
    destruct (column_loop_checked (Z.to_nat (width b)) b y 0 st Hw ltac:(lia) HL
                ltac:(lia)) as [Heq HS].
    rewrite <- Heq.
    destruct (column_loop (fun w l => l <=? w) _ b y 0 st) as [st'| | |];
      cbn [obind safe] in *; try easy.
    rewrite uadd_small by lia. apply IH; lia.
Qed.

(** * The line search: the claims *)

(** C1. On a valid grid with a set cell [find_hline] returns 0 and the line
    it writes lies on one row ([start.y = end.y], [start.x <= end.x]), is a
    maximal run of set cells of that row (all its cells are set, the cell
    left of [start.x] and the cell right of [end.x] are unset or outside the
    row), and is at least as long as every horizontal run of set cells of
    the grid. *)
Theorem find_hline_longest_run (b : Bitmap) :
  valid_grid b -> has_set_cell b ->
  exists l, find_hline b = Done (Some l) /\
    pt_y (l_start l) = pt_y (l_end l) /\
    pt_x (l_start l) <= pt_x (l_end l) /\
    maximal_run b (pt_y (l_start l)) (pt_x (l_start l)) (pt_x (l_end l)) /\
    forall y s e, is_run b y s e ->
      e - s + 1 <= pt_x (l_end l) - pt_x (l_start l) + 1.
Proof.
  intros Hv Hset.
  pose proof (valid_grid_width b Hv) as Hw.
  pose proof (valid_grid_height b Hv) as Hh.
  rewrite (find_hline_naive b Hv).
  destruct (naive_hline b) as [l|] eqn:HN.
  - exists l. split; [reflexivity|].
    destruct (naive_hline_some b l ltac:(lia) ltac:(lia) HN) as (Hrow & Hm & Hall).
    split; [now symmetry|]. split; [|split; [exact Hm|]].
    + destruct Hm as ((_ & _ & Hse & _) & _). exact Hse.
    + intros y s e Hr. fold (line_length l).
      destruct (Hall y s e Hr) as [H|[H _]]; lia.
  - exfalso. now apply (naive_hline_none b ltac:(lia) ltac:(lia)) in HN.
Qed.

Lemma find_hline_longest_run_witness :
  let b := grid [[false; true; true]; [true; true; true]] in
  valid_grid b /\ has_set_cell b /\
  exists l, find_hline b = Done (Some l) /\
    pt_y (l_start l) = pt_y (l_end l) /\
    pt_x (l_start l) <= pt_x (l_end l) /\
    maximal_run b (pt_y (l_start l)) (pt_x (l_start l)) (pt_x (l_end l)) /\
    forall y s e, is_run b y s e ->
      e - s + 1 <= pt_x (l_end l) - pt_x (l_start l) + 1.
Proof.
  intros b.
  assert (Hv : valid_grid b) by (unfold valid_grid, UINT_MAX; simpl; lia).
  assert (Hs : has_set_cell b).
  { exists 1, 0. simpl. repeat split; try lia. }
  split; [exact Hv|]. split; [exact Hs|].
  exact (find_hline_longest_run b Hv Hs).
Defined.

(** C2. When a valid grid has several longest runs, [find_hline] returns the
    first of them in scan order: for any maximal run that no run of the grid
    exceeds, the line returned is a maximal run of the same length that lies
    on an earlier row, or on the same row and starts at the same or a smaller
    column. *)
Theorem find_hline_first_of_longest (b : Bitmap) (y s e : Z) :
  valid_grid b -> maximal_run b y s e ->
  (forall y' s' e', maximal_run b y' s' e' -> e' - s' + 1 <= e - s + 1) ->
  exists l, find_hline b = Done (Some l) /\
    maximal_run b (pt_y (l_start l)) (pt_x (l_start l)) (pt_x (l_end l)) /\
    pt_y (l_end l) = pt_y (l_start l) /\
    pt_x (l_end l) - pt_x (l_start l) + 1 = e - s + 1 /\
    (pt_y (l_start l) < y \/ (pt_y (l_start l) = y /\ pt_x (l_start l) <= s)).
Proof.
  intros Hv Hm Hlongest.
  pose proof (valid_grid_width b Hv) as Hw.
  pose proof (valid_grid_height b Hv) as Hh.
  rewrite (find_hline_naive b Hv).
  destruct (naive_hline b) as [l|] eqn:HN.
  - exists l. split; [reflexivity|].
    destruct (naive_hline_some b l ltac:(lia) ltac:(lia) HN) as (Hrow & Hml & Hall).
    split; [exact Hml|]. split; [exact Hrow|].
    specialize (Hlongest _ _ _ Hml). fold (line_length l) in *.
    destruct (Hall y s e (proj1 Hm)) as [H|[H Hord]]; [lia|].
    split; [lia|exact Hord].
  - exfalso. apply (naive_hline_none b ltac:(lia) ltac:(lia)) in HN. apply HN.
    destruct Hm as (Hr & _). pose proof (is_run_start_set _ _ _ _ Hr) as C.
    destruct Hr as (Hy & Hs & Hse & He & _).
    exists s, y. repeat split; try lia. exact C.
Qed.

Lemma find_hline_first_of_longest_witness :
  let b := grid [[true; true]; [true; true]] in
  exists l, find_hline b = Done (Some l) /\
    maximal_run b (pt_y (l_start l)) (pt_x (l_start l)) (pt_x (l_end l)) /\
    pt_y (l_end l) = pt_y (l_start l) /\
    pt_x (l_end l) - pt_x (l_start l) + 1 = 1 - 0 + 1 /\
    (pt_y (l_start l) < 1 \/ (pt_y (l_start l) = 1 /\ pt_x (l_start l) <= 0)).
Proof.
  intros b. apply (find_hline_first_of_longest b 1 0 1).
  - unfold valid_grid, UINT_MAX. simpl. lia.
  - split; [|split; [now left|now left]].
    repeat split; simpl; try lia.
    intros x Hx. assert (x = 0 \/ x = 1) as [->| ->] by lia; reflexivity.
  - intros y' s' e' ((Hy & Hs & Hse & He & _) & _). simpl in He. lia.
Defined.

(** C3. On every valid grid [find_hline], with the bound [width -
    length_final] on its column loop and the jump of [x] to the first unset
    cell, returns the same outcome (found or not) and the same line as the
    reference scan [naive_hline], which visits every cell of every row and
    skips nothing. In particular a maximal run that ends in the last column
    of its row is found and compared: the line returned is at least as
    long. *)
Theorem find_hline_refines_naive (b : Bitmap) :
  valid_grid b ->
  find_hline b = Done (naive_hline b) /\
  (find_hline b = Done None <-> naive_hline b = None) /\
  (forall l, find_hline b = Done (Some l) <-> naive_hline b = Some l) /\
  (forall y s, maximal_run b y s (width b - 1) ->
     exists l, find_hline b = Done (Some l) /\
       width b - 1 - s + 1 <= line_length l).
Proof.
  intros Hv.
  pose proof (valid_grid_width b Hv) as Hw.
  pose proof (valid_grid_height b Hv) as Hh.
  rewrite (find_hline_naive b Hv).
  split; [reflexivity|]. split; [|split].
  - split; [now intros [= ->]|now intros ->].
  - intros l. split; [now intros [= ->]|now intros ->].
  - intros y s (Hr & _).
    destruct (naive_hline b) as [l|] eqn:HN.
    + exists l. split; [reflexivity|].
      destruct (naive_hline_some b l ltac:(lia) ltac:(lia) HN) as (_ & _ & Hall).
      destruct (Hall y s (width b - 1) Hr) as [H|[H _]]; lia.
    + exfalso. apply (naive_hline_none b ltac:(lia) ltac:(lia)) in HN. apply HN.
      pose proof (is_run_start_set _ _ _ _ Hr) as C.
      destruct Hr as (Hy & Hs & Hse & He & _).
      exists s, y. repeat split; try lia. exact C.
Qed.

Lemma find_hline_refines_naive_witness :
  let b := grid [[true; false; true; true]; [false; true; true; false]] in
  valid_grid b /\
  find_hline b = Done (naive_hline b) /\
  naive_hline b = Some (mkLine (mkPoint 2 0) (mkPoint 3 0)).
Proof.
  intros b.
  assert (Hv : valid_grid b) by (unfold valid_grid, UINT_MAX; simpl; lia).
  split; [exact Hv|]. split; [exact (proj1 (find_hline_refines_naive b Hv))|].
  reflexivity.
Defined.

(** C9. On a grid of positive width, each time the condition of the column
    loop is evaluated [length_final] is at most [bitmap->width], so that
    [bitmap->width - length_final] does not wrap: the search run with that
    assertion at every evaluation never breaks it, never runs out of fuel
    and ends as the search without the assertion does. *)
Theorem find_hline_length_within_width (b : Bitmap) :
  0 < width b -> width b <= UINT_MAX -> 0 <= height b <= UINT_MAX ->
  find_hline_checked b <> Violation /\
  find_hline_checked b <> OutOfFuel /\
  find_hline_checked b = find_hline b.
Proof.
  intros Hw0 Hw Hh.
  unfold find_hline_checked, find_hline, find_hline_monitored.
  destruct (row_loop_checked (Z.to_nat (height b)) b 0 (mkBest None None 0)
              Hw ltac:(lia) ltac:(lia) ltac:(lia) ltac:(simpl; lia) ltac:(lia))
    as [Heq HS].
  rewrite <- Heq.
  destruct (row_loop (fun w l => l <=? w) _ b 0 _) as [st| | |];
    cbn [obind safe] in *; try easy.
  repeat split; try easy;
    destruct (negb _); try easy; destruct (start_final st), (end_final st); easy.
Qed.

Lemma find_hline_length_within_width_witness :
  let b := grid [[false; true; true]; [true; true; true]] in
  find_hline_checked b <> Violation /\
  find_hline_checked b <> OutOfFuel /\
  find_hline_checked b = find_hline b.
Proof.
  intros b. apply (find_hline_length_within_width b).
  - simpl. lia.
  - unfold UINT_MAX. simpl. lia.
  - unfold UINT_MAX. simpl. lia.
Defined.

(** * The loader *)

(** ** Conversions and text after them *)

Lemma skip_space_app (s t : string) :
  skip_space s <> EmptyString ->
  skip_space (String.append s t) = String.append (skip_space s) t.
Proof.
  induction s as [|c s IH]; simpl; [easy|].
  destruct (isspace c); [exact IH|reflexivity].
Qed.

Lemma scan_digits_app (s : string) (acc : Z) (c : ascii) (t : string) :
  isdigit c = false ->
  scan_digits (String.append s (String c t)) acc
  = (fst (scan_digits s acc), String.append (snd (scan_digits s acc)) (String c t)).
Proof.
  intros Hc. revert acc. induction s as [|d s IH]; intros acc; simpl.
  - now rewrite Hc.
  - destruct (isdigit d); [apply IH|reflexivity].
Qed.

Lemma scan_integer_app (s : string) (v : Z) (r : string) (c : ascii) (t : string) :
  isdigit c = false -> scan_integer s = Some (v, r) ->
  scan_integer (String.append s (String c t)) = Some (v, String.append r (String c t)).
Proof.
  intros Hc. unfold scan_integer.
  destruct (skip_space s) as [|a s'] eqn:Hs; [simpl; discriminate|].
  rewrite skip_space_app by (rewrite Hs; discriminate). rewrite Hs. simpl.
  assert (Hd : forall neg s1,
    match s1 with
    | String c0 _ =>
        if isdigit c0 then
          let (v0, rest) := scan_digits s1 0 in Some (if neg : bool then - v0 else v0, rest)
        else None
    | EmptyString => None
    end = Some (v, r) ->
    match String.append s1 (String c t) with
    | String c0 _ =>
        if isdigit c0 then
          let (v0, rest) := scan_digits (String.append s1 (String c t)) 0 in
          Some (if neg then - v0 else v0, rest)
        else None
    | EmptyString => None
    end = Some (v, String.append r (String c t))).
  { intros neg [|d s1]; [discriminate|]. intros H.
    change (String.append (String d s1) (String c t))
      with (String d (String.append s1 (String c t))).
    destruct (isdigit d) eqn:Dd; [|discriminate].
    change (String d (String.append s1 (String c t)))
      with (String.append (String d s1) (String c t)).
    rewrite scan_digits_app by exact Hc.
    destruct (scan_digits (String d s1) 0) as [v0 rest]. simpl.
    rewrite Dd. now inversion H. }
  destruct (Ascii.eqb a "-"); [apply (Hd true)|].
  destruct (Ascii.eqb a "+"); [apply (Hd false)|].
  apply (Hd false (String a s')).
Qed.

Lemma scan_integers_length (n : nat) (s : string) (vs : list Z) (r : string) :
  scan_integers n s = Some (vs, r) -> length vs = n.
Proof.
  revert s vs r. induction n as [|n IH]; intros s vs r; simpl.
  - now intros [= <- _].
  - destruct (scan_integer s) as [[v r0]|]; [|discriminate].
    destruct (scan_integers n r0) as [[vs' r']|] eqn:E; [|discriminate].
    intros [= <- _]. simpl. f_equal. exact (IH _ _ _ E).
Qed.

(** ** The loop over the pixels *)

Lemma fscanf_d_some (file : string) (p : Z) (r : string) :
  fscanf_d file = Done (Some (p, r)) <->
  scan_integer file = Some (p, r) /\ INT_MIN <= p <= INT_MAX.
Proof.
  unfold fscanf_d. destruct (scan_integer file) as [[v r0]|]; [|easy].
  destruct (Z.leb_spec INT_MIN v), (Z.leb_spec v INT_MAX); simpl;
    split; try easy; try (intros [= -> ->]; easy);
    intros [[= -> ->] ?]; (reflexivity || lia).
Qed.

Lemma fscanf_d_none (file : string) :
  fscanf_d file = Done None <-> scan_integer file = None.
Proof.
  unfold fscanf_d. destruct (scan_integer file) as [[v r0]|]; [|easy].
  destruct ((INT_MIN <=? v) && (v <=? INT_MAX)); easy.
Qed.

Lemma is_bit_test (p : Z) :
  (negb (p =? 0) && negb (p =? 1)) = false <-> is_bit p.
Proof.
  unfold is_bit.
  destruct (Z.eqb_spec p 0), (Z.eqb_spec p 1); simpl; split; try easy; lia.
Qed.

Lemma write_data_in_range (bm : Bitmap) (index : Z) (v : bool) :
  0 <= index < Z.of_nat (length (data bm)) ->
  write_data bm index v
  = Done (mkBitmap (width bm) (height bm) (<[Z.to_nat index := v]> (data bm))).
Proof.
  intros H. unfold write_data.
  destruct (index <? _) eqn:E; [reflexivity|]. apply Z.ltb_ge in E. lia.
Qed.

(** When the loop ends normally it has read one conversion for each index
    left and stored them in the order read. *)
Lemma pixel_loop_some (fuel : nat) (area index : Z) (file : string) (bm bm' : Bitmap) :
  0 <= index -> area <= UINT_MAX -> Z.of_nat (length (data bm)) = area ->
  pixel_loop fuel area index file bm = Done (Some bm') ->
  exists pixels rest,
    scan_integers (Z.to_nat (area - index)) file = Some (pixels, rest) /\
    Forall is_bit pixels /\
    width bm' = width bm /\ height bm' = height bm /\
    data bm' = take (Z.to_nat index) (data bm)
               ++ ((fun p => negb (p =? 0)) <$> pixels).
Proof.
  intros Hi Ha. revert index file bm Hi.
  induction fuel as [|fuel IH]; intros index file bm Hi Hl H.
  - simpl in H. destruct (index <? area) eqn:E; [discriminate|].
    apply Z.ltb_ge in E. injection H as <-.
    replace (Z.to_nat (area - index)) with 0%nat by lia.
    exists [], file. simpl. repeat split; try easy.
    rewrite take_ge by lia. now rewrite app_nil_r.
  - cbn [pixel_loop] in H. destruct (index <? area) eqn:E.
    + apply Z.ltb_lt in E.
      destruct (fscanf_d file) as [[[p r]|]| | |] eqn:Sc; try discriminate.
      apply fscanf_d_some in Sc as [Sc Hp]. cbn [obind] in H.
      destruct (negb (p =? 0) && negb (p =? 1)) eqn:B; [discriminate|].
      apply is_bit_test in B.
      rewrite write_data_in_range in H by lia. cbn [obind] in H.
      rewrite uadd_small in H by lia.
      apply IH in H; [|lia|simpl; rewrite length_insert; exact Hl].
      destruct H as (pixels & rest & Hsc & Hbits & Hw & Hh & Hd).
      exists (p :: pixels), rest.
      replace (Z.to_nat (area - index)) with (S (Z.to_nat (area - (index + 1)))) by lia.
      simpl. rewrite Sc, Hsc. repeat split; try easy.
      * now constructor.
      * rewrite Hd. simpl.
        replace (Z.to_nat (index + 1)) with (S (Z.to_nat index)) by lia.
        rewrite (take_S_r _ _ (negb (p =? 0)))
          by (apply list_lookup_insert_eq; lia).
        rewrite take_insert_ge by lia. now rewrite <- app_assoc.
    + apply Z.ltb_ge in E. injection H as <-.
      replace (Z.to_nat (area - index)) with 0%nat by lia.
      exists [], file. simpl. repeat split; try easy.
      rewrite take_ge by lia. now rewrite app_nil_r.
Qed.

(** The loop leaves through its error return exactly when, after some
    conversions that gave 0 or 1, a conversion that is still required does
    not match or gives another [int]. *)
Lemma pixel_loop_none (fuel : nat) (area index : Z) (file : string) (bm : Bitmap) :
  0 <= index -> area <= UINT_MAX -> Z.of_nat (length (data bm)) = area ->
  area - index <= Z.of_nat fuel ->
  pixel_loop fuel area index file bm = Done None <->
  exists (k : nat) pixels rest,
    index + Z.of_nat k < area /\
    scan_integers k file = Some (pixels, rest) /\
    Forall is_bit pixels /\ bad_pixel rest.
Proof.
  intros Hi Ha. revert index file bm Hi.
  induction fuel as [|fuel IH]; intros index file bm Hi Hl Hf.
  - simpl. destruct (index <? area) eqn:E; [apply Z.ltb_lt in E; lia|].
    split; [discriminate|]. intros (k & ? & ? & Hk & _). lia.
  - cbn [pixel_loop]. destruct (index <? area) eqn:E.
    2:{ apply Z.ltb_ge in E. split; [discriminate|].
        intros (k & ? & ? & Hk & _). lia. }
    apply Z.ltb_lt in E.
    destruct (fscanf_d file) as [[[p r]|]| | |] eqn:Sc; cbn [obind].
    + apply fscanf_d_some in Sc as [Sc Hp].
      destruct (negb (p =? 0) && negb (p =? 1)) eqn:B.
      * split; [intros _|reflexivity].
        exists 0%nat, [], file. simpl. repeat split; try easy; try lia.
        right. exists p, r. repeat split; try easy.
        intros Hb. apply is_bit_test in Hb. congruence.
      * apply is_bit_test in B.
        rewrite write_data_in_range by lia. cbn [obind].
        rewrite uadd_small by lia.
        rewrite IH; [|lia|simpl; rewrite length_insert; exact Hl|lia].
        split.
        -- intros (k & pixels & rest & Hk & Hsc & Hbits & Hbad).
           exists (S k), (p :: pixels), rest. simpl. rewrite Sc, Hsc.
           repeat split; try easy; try lia. now constructor.
        -- intros (k & pixels & rest & Hk & Hsc & Hbits & Hbad).
           destruct k as [|k]; simpl in Hsc.
           ++ injection Hsc as <- <-.
              destruct Hbad as [Hn|(p' & r' & Hs' & _ & Hnb)]; [congruence|].
              rewrite Sc in Hs'. injection Hs' as <- <-. easy.
           ++ rewrite Sc in Hsc.
              destruct (scan_integers k r) as [[vs r']|] eqn:Hk'; [|discriminate].
              injection Hsc as <- <-.
              exists k, vs, r'. repeat split; try easy; try lia.
              now inversion Hbits.
    + apply fscanf_d_none in Sc. split; [intros _|reflexivity].
      exists 0%nat, [], file. simpl. repeat split; try easy; try lia. now left.
    + split; [discriminate|].
      intros (k & pixels & rest & Hk & Hsc & Hbits & Hbad). exfalso.
      unfold fscanf_d in Sc.
      destruct (scan_integer file) as [[v r0]|] eqn:Hs; [|discriminate].
      destruct ((INT_MIN <=? v) && (v <=? INT_MAX)) eqn:R; [discriminate|].
      assert (Hr : ~ INT_MIN <= v <= INT_MAX).
      { intros [A B]. apply Z.leb_le in A, B. rewrite A, B in R. discriminate. }
      destruct k as [|k]; simpl in Hsc.
      * injection Hsc as <- <-.
        destruct Hbad as [Hn|(p' & r' & Hs' & Hr' & _)]; [congruence|].
        rewrite Hs in Hs'. injection Hs' as <- <-. easy.
      * rewrite Hs in Hsc.
        destruct (scan_integers k r0) as [[vs r']|]; [|discriminate].
        injection Hsc as <- <-. inversion Hbits as [|? ? Hb _]; subst.
        apply Hr. unfold INT_MIN, INT_MAX. destruct Hb; lia.
    + unfold fscanf_d in Sc. destruct (scan_integer file) as [[v r0]|];
        [destruct (_ && _)|]; discriminate.
    + unfold fscanf_d in Sc. destruct (scan_integer file) as [[v r0]|];
        [destruct (_ && _)|]; discriminate.
Qed.

Lemma pixel_loop_app (fuel : nat) (area index : Z) (file : string) (bm bm' : Bitmap)
      (c : ascii) (t : string) :
  isdigit c = false ->
  pixel_loop fuel area index file bm = Done (Some bm') ->
  pixel_loop fuel area index (String.append file (String c t)) bm = Done (Some bm').
Proof.
  intros Hc. revert index file bm.
  induction fuel as [|fuel IH]; intros index file bm H.
  - simpl in *. destruct (index <? area); [discriminate|exact H].
  - cbn [pixel_loop] in *. destruct (index <? area); [|exact H].
    destruct (fscanf_d file) as [[[p r]|]| | |] eqn:Sc; try discriminate.
    apply fscanf_d_some in Sc as [Sc Hp].
    assert (Sc' : fscanf_d (String.append file (String c t))
                  = Done (Some (p, String.append r (String c t)))).
    { apply fscanf_d_some. split; [|exact Hp]. now apply scan_integer_app. }
    rewrite Sc'. cbn [obind] in *.
    destruct (negb (p =? 0) && negb (p =? 1)); [discriminate|].
    destruct (write_data bm index (negb (p =? 0))) as [bm1| | |]; try discriminate.
    cbn [obind] in *. now apply IH.
Qed.

(** ** The dimensions *)

Lemma in_range_test (lo v hi : Z) :
  ((lo <=? v) && (v <=? hi)) = true <-> lo <= v <= hi.
Proof. destruct (Z.leb_spec lo v), (Z.leb_spec v hi); simpl; split; try easy; lia. Qed.

Lemma fscanf_u_u_some (file : string) (a b : Z) (r : string) :
  fscanf_u_u file = Done (Some (a, b, r)) <->
  scan_integers 2 file = Some ([a; b], r) /\
  0 <= a <= UINT_MAX /\ 0 <= b <= UINT_MAX.
Proof.
  unfold fscanf_u_u. simpl.
  destruct (scan_integer file) as [[a0 r1]|]; [|easy].
  destruct ((0 <=? a0) && (a0 <=? UINT_MAX)) eqn:Ra.
  - apply in_range_test in Ra.
    destruct (scan_integer r1) as [[b0 r2]|]; [|easy].
    destruct ((0 <=? b0) && (b0 <=? UINT_MAX)) eqn:Rb.
    + apply in_range_test in Rb. split.
      * intros [= -> -> ->]. easy.
      * intros [[= -> -> ->] _]. reflexivity.
    + split; [discriminate|]. intros [[= -> -> ->] (_ & Hb)].
      apply in_range_test in Hb. congruence.
  - split; [discriminate|].
    destruct (scan_integer r1) as [[b0 r2]|]; [|easy].
    intros [[= -> -> ->] (Ha & _)]. apply in_range_test in Ha. congruence.
Qed.

Lemma fscanf_u_u_none (file : string) :
  fscanf_u_u file = Done None <->
  scan_integer file = None \/
  exists h r, scan_integer file = Some (h, r) /\ 0 <= h <= UINT_MAX /\
              scan_integer r = None.
Proof.
  unfold fscanf_u_u.
  destruct (scan_integer file) as [[a0 r1]|]; [|split; [now left|reflexivity]].
  destruct ((0 <=? a0) && (a0 <=? UINT_MAX)) eqn:Ra.
  - apply in_range_test in Ra.
    destruct (scan_integer r1) as [[b0 r2]|] eqn:S2.
    + split.
      * destruct (_ && _); discriminate.
      * intros [|(h & r & [= <- <-] & _ & Hn)]; [discriminate|congruence].
    + split; [intros _|reflexivity]. right. now exists a0, r1.
  - split; [discriminate|].
    intros [|(h & r & [= <- <-] & Hh & _)]; [discriminate|].
    apply in_range_test in Hh. congruence.
Qed.

(** ** What a successful load has read *)

Lemma load_bitmap_some (env : Env) (name : string) (b : Bitmap) (d : string) :
  load_bitmap env name = Done (Some b, d) ->
  exists file rest0 pixels rest,
    d = EmptyString /\
    fopen env name = Some file /\
    scan_integers 2 file = Some ([height b; width b], rest0) /\
    0 < height b <= UINT_MAX /\ 0 < width b <= UINT_MAX /\
    malloc_ok env (sizeof_Bitmap + (width b * height b) mod (UINT_MAX + 1)) = true /\
    scan_integers (Z.to_nat ((width b * height b) mod (UINT_MAX + 1))) rest0
      = Some (pixels, rest) /\
    Forall is_bit pixels /\
    data b = (fun p => negb (p =? 0)) <$> pixels.
Proof.
  unfold load_bitmap. destruct (fopen env name) as [file|]; [|discriminate].
  destruct (fscanf_u_u file) as [[[[h w] rest0]|]| | |] eqn:Sc; try discriminate.
  apply fscanf_u_u_some in Sc as (Sc & Hh & Hw). cbn [obind].
  destruct ((w <=? 0) || (h <=? 0)) eqn:Z0; [discriminate|].
  apply orb_false_iff in Z0 as [Zw Zh]. apply Z.leb_gt in Zw, Zh.
  unfold create_bitmap.
  destruct (malloc_ok env _) eqn:M; [|discriminate].
  destruct (pixel_loop _ _ 0 rest0 _) as [[bm'|]| | |] eqn:P; try discriminate.
  cbn [obind]. intros [= <- <-].
  assert (Hm : 0 <= umul w h <= UINT_MAX).
  { unfold umul, wrap, UINT_MAX. pose proof (Z.mod_pos_bound (w * h) (4294967295 + 1)). lia. }
  apply pixel_loop_some in P;
    [|lia|lia|simpl; rewrite length_replicate; lia].
  destruct P as (pixels & rest & Hsc & Hbits & Hw' & Hh' & Hd).
  simpl in Hw', Hh', Hd. rewrite Z.sub_0_r in Hsc.
  exists file, rest0, pixels, rest. rewrite Hw', Hh'.
  unfold sizeof_bool in M. rewrite Z.mul_1_r in M.
  repeat split; try easy; try lia.
Qed.

(** ** Sources that load *)

Lemma umul_range (a b : Z) : 0 <= umul a b <= UINT_MAX.
Proof.
  unfold umul, wrap, UINT_MAX.
  pose proof (Z.mod_pos_bound (a * b) (4294967295 + 1)). lia.
Qed.

(** With a conversion that gives 0 or 1 for each index left, the loop ends
    normally. *)
Lemma pixel_loop_complete (fuel : nat) (area index : Z) (file : string) (bm : Bitmap)
      (pixels : list Z) (rest : string) :
  0 <= index -> area <= UINT_MAX -> Z.of_nat (length (data bm)) = area ->
  area - index <= Z.of_nat fuel ->
  scan_integers (Z.to_nat (area - index)) file = Some (pixels, rest) ->
  Forall is_bit pixels ->
  pixel_loop fuel area index file bm
  = Done (Some (mkBitmap (width bm) (height bm)
                  (take (Z.to_nat index) (data bm)
                   ++ ((fun p => negb (p =? 0)) <$> pixels)))).
Proof.
  intros Hi Ha. revert index file bm pixels Hi.
  induction fuel as [|fuel IH]; intros index file bm pixels Hi Hl Hf Hsc Hbits.
  - simpl. destruct (index <? area) eqn:E; [apply Z.ltb_lt in E; lia|].
    replace (Z.to_nat (area - index)) with 0%nat in Hsc by lia.
    simpl in Hsc. injection Hsc as <- <-. simpl.
    rewrite take_ge, app_nil_r by lia. now destruct bm.
  - cbn [pixel_loop]. destruct (index <? area) eqn:E.
    + apply Z.ltb_lt in E.
      replace (Z.to_nat (area - index)) with (S (Z.to_nat (area - (index + 1))))
        in Hsc by lia.
      simpl in Hsc.
      destruct (scan_integer file) as [[p r]|] eqn:S1; [|discriminate].
      destruct (scan_integers _ r) as [[ps r']|] eqn:S2; [|discriminate].
      injection Hsc as <- <-.
      inversion_clear Hbits as [|? ? Hb Hbs].
      assert (Sc : fscanf_d file = Done (Some (p, r))).
      { apply fscanf_d_some. split; [exact S1|].
        unfold INT_MIN, INT_MAX. destruct Hb; lia. }
      rewrite Sc. cbn [obind].
      rewrite (proj2 (is_bit_test p) Hb).
      rewrite write_data_in_range by lia. cbn [obind].
      rewrite uadd_small by lia.
      rewrite (IH (index + 1) r _ ps); try lia; try easy;
        [|simpl; rewrite length_insert; exact Hl].
      simpl. do 3 f_equal.
      replace (Z.to_nat (index + 1)) with (S (Z.to_nat index)) by lia.
      rewrite (take_S_r _ _ (negb (p =? 0)))
        by (apply list_lookup_insert_eq; lia).
      rewrite take_insert_ge by lia. now rewrite <- app_assoc.
    + apply Z.ltb_ge in E.
      replace (Z.to_nat (area - index)) with 0%nat in Hsc by lia.
      simpl in Hsc. injection Hsc as <- <-. simpl.
      rewrite take_ge, app_nil_r by lia. now destruct bm.
Qed.

Lemma load_bitmap_complete (env : Env) (name file rest0 : string) (h w : Z)
      (pixels : list Z) (rest : string) :
  fopen env name = Some file ->
  scan_integers 2 file = Some ([h; w], rest0) ->
  0 < h <= UINT_MAX -> 0 < w <= UINT_MAX ->
  malloc_ok env (sizeof_Bitmap + (w * h) mod (UINT_MAX + 1)) = true ->
  scan_integers (Z.to_nat ((w * h) mod (UINT_MAX + 1))) rest0 = Some (pixels, rest) ->
  Forall is_bit pixels ->
  load_bitmap env name
  = Done (Some (mkBitmap w h ((fun p => negb (p =? 0)) <$> pixels)), EmptyString).
Proof.
  intros F Sd Hh Hw M Sp Hbits. unfold load_bitmap. rewrite F.
  assert (Sc : fscanf_u_u file = Done (Some (h, w, rest0)))
    by (apply fscanf_u_u_some; repeat split; try easy; lia).
  rewrite Sc. cbn [obind].
  assert (((w <=? 0) || (h <=? 0)) = false) as ->.
  { apply orb_false_iff. split; apply Z.leb_gt; lia. }
  unfold create_bitmap, sizeof_bool. rewrite Z.mul_1_r.
  assert (M' : malloc_ok env (sizeof_Bitmap + umul w h) = true) by exact M.
  rewrite M'. pose proof (umul_range w h) as Hm.
  rewrite (pixel_loop_complete _ _ 0 rest0 _ pixels rest); try lia; try easy.
  - simpl. rewrite length_replicate. lia.
  - rewrite Z.sub_0_r. exact Sp.
Qed.

(** ** When the loader fails *)

Lemma pixel_loop_fresh_none (w h : Z) (file : string) :
  pixel_loop (Z.to_nat (umul w h)) (umul w h) 0 file
    (mkBitmap w h (replicate (Z.to_nat (umul w h)) false)) = Done None <->
  exists (k : nat) pixels rest,
    Z.of_nat k < (w * h) mod (UINT_MAX + 1) /\
    scan_integers k file = Some (pixels, rest) /\
    Forall is_bit pixels /\ bad_pixel rest.
Proof.
  pose proof (umul_range w h) as Hm.
  rewrite pixel_loop_none; [|lia|lia|simpl; rewrite length_replicate; lia|lia].
  reflexivity.
Qed.

Lemma load_bitmap_none (env : Env) (name d : string) :
  load_bitmap env name = Done (None, d) <-> load_failure env name d.
Proof.
  split.
  - unfold load_bitmap. destruct (fopen env name) as [file|] eqn:F.
    2:{ intros [= <-]. now apply fail_unreadable. }
    destruct (fscanf_u_u file) as [[[[h w] rest0]|]| | |] eqn:Sc; try discriminate;
      cbn [obind].
    2:{ intros [= <-]. apply fscanf_u_u_none in Sc as [Sc|(h & r & S1 & Hh & S2)].
        - now apply (fail_first_dimension env name file).
        - now apply (fail_second_dimension env name file h r). }
    apply fscanf_u_u_some in Sc as (Sc & Hh & Hw).
    destruct ((w <=? 0) || (h <=? 0)) eqn:Z0.
    { intros [= <-]. apply (fail_size env name file h w rest0); try easy.
      apply orb_true_iff in Z0 as [Z0|Z0]; apply Z.leb_le in Z0; lia. }
    apply orb_false_iff in Z0 as [Zw Zh]. apply Z.leb_gt in Zw, Zh.
    unfold create_bitmap, sizeof_bool. rewrite Z.mul_1_r.
    destruct (malloc_ok env _) eqn:M.
    2:{ intros [= <-]. apply (fail_allocation env name file h w rest0); try easy; lia. }
    destruct (pixel_loop _ _ 0 rest0 _) as [[bm'|]| | |] eqn:P; try discriminate.
    cbn [obind]. intros [= <-].
    apply pixel_loop_fresh_none in P as (k & pixels & rest & Hk & Hsc & Hb & Hbad).
    apply (fail_pixel env name file h w rest0 k pixels rest); try easy; lia.
  - intros Hf. unfold load_bitmap.
    destruct Hf as [F|file F S1|file h r F S1 Hh S2|file h w r F Sc Hh Hw Hz
                    |file h w r F Sc Hh Hw M|file h w r k pixels r' F Sc Hh Hw M Hk Hsc Hb Hbad];
      rewrite F.
    + reflexivity.
    + assert (Sc : fscanf_u_u file = Done None) by (apply fscanf_u_u_none; now left).
      now rewrite Sc.
    + assert (Sc : fscanf_u_u file = Done None).
      { apply fscanf_u_u_none. right. now exists h, r. }
      now rewrite Sc.
    + assert (Sc' : fscanf_u_u file = Done (Some (h, w, r)))
        by now apply fscanf_u_u_some.
      rewrite Sc'. cbn [obind].
      assert (((w <=? 0) || (h <=? 0)) = true) as ->; [|reflexivity].
      apply orb_true_iff. destruct Hz as [-> | ->]; [now right|now left].
    + assert (Sc' : fscanf_u_u file = Done (Some (h, w, r)))
        by (apply fscanf_u_u_some; repeat split; try easy; lia).
      rewrite Sc'. cbn [obind].
      assert (((w <=? 0) || (h <=? 0)) = false) as ->.
      { apply orb_false_iff. split; apply Z.leb_gt; lia. }
      unfold create_bitmap, sizeof_bool. rewrite Z.mul_1_r.
      unfold umul, wrap. now rewrite M.
    + assert (Sc' : fscanf_u_u file = Done (Some (h, w, r)))
        by (apply fscanf_u_u_some; repeat split; try easy; lia).
      rewrite Sc'. cbn [obind].
      assert (((w <=? 0) || (h <=? 0)) = false) as ->.
      { apply orb_false_iff. split; apply Z.leb_gt; lia. }
      unfold create_bitmap, sizeof_bool. rewrite Z.mul_1_r.
      assert (M' : malloc_ok env (sizeof_Bitmap + umul w h) = true) by exact M.
      rewrite M'.
      assert (P : pixel_loop (Z.to_nat (umul w h)) (umul w h) 0 r
                    (mkBitmap w h (replicate (Z.to_nat (umul w h)) false)) = Done None).
      { apply pixel_loop_fresh_none. now exists k, pixels, r'. }
      now rewrite P.
Qed.

(** Text after a source that loads changes nothing, provided it does not
    begin with a digit. *)
Lemma load_bitmap_extra (env : Env) (name file : string) (b : Bitmap) (d : string)
      (c : ascii) (extra : string) :
  fopen env name = Some file -> isdigit c = false ->
  load_bitmap env name = Done (Some b, d) ->
  load_bitmap (with_file env name (String.append file (String c extra))) name
  = Done (Some b, d).
Proof.
  intros F Hc. unfold load_bitmap. rewrite F. simpl fopen.
  rewrite String.eqb_refl.
  destruct (fscanf_u_u file) as [[[[h w] rest0]|]| | |] eqn:Sc; try discriminate.
  apply fscanf_u_u_some in Sc as (Sc & Hh & Hw).
  assert (Sc' : fscanf_u_u (String.append file (String c extra))
                = Done (Some (h, w, String.append rest0 (String c extra)))).
  { apply fscanf_u_u_some. repeat split; try easy.
    simpl in *. destruct (scan_integer file) as [[a r1]|] eqn:S1; [|discriminate].
    destruct (scan_integer r1) as [[a2 r2]|] eqn:S2; [|discriminate].
    injection Sc as -> -> ->.
    rewrite (scan_integer_app file h r1 c extra Hc S1).
    now rewrite (scan_integer_app r1 w rest0 c extra Hc S2). }
  rewrite Sc'. cbn [obind].
  destruct ((w <=? 0) || (h <=? 0)); [easy|].
  unfold create_bitmap. simpl malloc_ok.
  destruct (malloc_ok env _); [|easy].
  destruct (pixel_loop _ _ 0 rest0 _) as [[bm'|]| | |] eqn:P; try discriminate.
  rewrite (pixel_loop_app _ _ _ _ _ _ c extra Hc P). easy.
Qed.

(** ** The fuel of the loader is enough *)

Lemma pixel_loop_safe (fuel : nat) (area index : Z) (file : string) (bm : Bitmap) :
  0 <= index -> area <= UINT_MAX -> Z.of_nat (length (data bm)) = area ->
  area - index <= Z.of_nat fuel ->
  safe (fun _ => True) (pixel_loop fuel area index file bm).
Proof.
  intros Hi Ha. revert index file bm Hi.
  induction fuel as [|fuel IH]; intros index file bm Hi Hl Hf.
  - simpl. destruct (index <? area) eqn:E; [apply Z.ltb_lt in E; lia|easy].
  - cbn [pixel_loop]. destruct (index <? area) eqn:E; [|easy].
    apply Z.ltb_lt in E. unfold fscanf_d.
    destruct (scan_integer file) as [[p r]|]; [|easy].
    destruct ((INT_MIN <=? p) && (p <=? INT_MAX)); [|easy]. cbn [obind].
    destruct (negb (p =? 0) && negb (p =? 1)); [easy|].
    rewrite write_data_in_range by lia. cbn [obind].
    rewrite uadd_small by lia.
    apply IH; [lia|simpl; rewrite length_insert; exact Hl|lia].
Qed.

Lemma load_bitmap_safe (env : Env) (name : string) :
  safe (fun _ => True) (load_bitmap env name).
Proof.
  unfold load_bitmap. destruct (fopen env name) as [file|]; [|easy].
  unfold fscanf_u_u.
  destruct (scan_integer file) as [[h r1]|]; [|easy].
  destruct ((0 <=? h) && (h <=? UINT_MAX)); [|easy].
  destruct (scan_integer r1) as [[w r2]|]; [|easy].
  destruct ((0 <=? w) && (w <=? UINT_MAX)); [|easy]. cbn [obind].
  destruct ((w <=? 0) || (h <=? 0)); [easy|].
  unfold create_bitmap. destruct (malloc_ok env _); [|easy].
  pose proof (umul_range w h) as Hm.
  pose proof (pixel_loop_safe (Z.to_nat (umul w h)) (umul w h) 0 r2
                (mkBitmap w h (replicate (Z.to_nat (umul w h)) false))
                ltac:(lia) ltac:(lia)
                ltac:(simpl; rewrite length_replicate; lia) ltac:(lia)) as HS.
  destruct (pixel_loop _ _ 0 r2 _) as [[bm|]| | |]; easy.
Qed.

(** * The commands *)

Lemma main_hline (env : Env) (prog name : string) :
  main env [prog; "hline"; name]%string
  = let* (bitmap, err) := load_bitmap env name in
    match bitmap with
    | None => Done (1, EmptyString, err)
    | Some bitmap =>
        let* result := find_hline bitmap in
        match result with
        | Some line => Done (0, print_line line, err)
        | None => Done (1, EmptyString, String.append err (text_line "No line found"))
        end
    end.
Proof. reflexivity. Qed.

Lemma main_wrong_count (env : Env) (argv : list string) :
  (length argv < 2 \/ 3 < length argv)%nat ->
  main env argv = Done (1, EmptyString, text_line "Invalid arguments").
Proof.
  intros H. unfold main.
  destruct ((Z.of_nat (length argv) <? 2) || (3 <? Z.of_nat (length argv))) eqn:E;
    [reflexivity|].
  apply orb_false_iff in E as [A B]. apply Z.ltb_ge in A, B. lia.
Qed.

Lemma main_other_command (env : Env) (prog command : string) (rest : list string) :
  (length rest <= 1)%nat ->
  command <> "--help"%string -> command <> "test"%string -> command <> "hline"%string ->
  main env (prog :: command :: rest)
  = Done (1, EmptyString, text_line "Invalid command").
Proof.
  intros Hl H1 H2 H3. apply String.eqb_neq in H1, H2, H3.
  destruct rest as [|f [|g rest]]; [| |simpl in Hl; lia];
    unfold main; simpl; now rewrite H1, H2, H3.
Qed.

(** C8. The dispatcher: with one or two arguments of which the first is
    [--help] the five lines of the usage text, from [Usage: figsearch
    COMMAND [FILE]] to the line of [hline], are printed on standard output,
    nothing on the error stream, and the exit code is 0; [test] and
    [hline] without a file name print the diagnostic [Filename required],
    which no other error shares, and exit with 1; any other command, and any
    number of arguments other than a command with at most one file name,
    prints a diagnostic and exits with 1. *)
Theorem main_dispatch (env : Env) (prog : string) :
  (forall rest, (length rest <= 1)%nat ->
     main env (prog :: "--help"%string :: rest)
     = Done (0,
             text_line (source [ "Usage: figsearch COMMAND [FILE]";
                                 "Commands:";
                                 "  --help   Display this help message";
                                 "  test     Check if the file contains valid bitmap";
                                 "  hline    Find longest horizontal line" ]%string),
             EmptyString)) /\
  main env [prog; "test"%string]
    = Done (1, EmptyString, text_line "Filename required") /\
  main env [prog; "hline"%string]
    = Done (1, EmptyString, text_line "Filename required") /\
  (forall command rest, (length rest <= 1)%nat ->
     command <> "--help"%string -> command <> "test"%string ->
     command <> "hline"%string ->
     main env (prog :: command :: rest)
     = Done (1, EmptyString, text_line "Invalid command")) /\
  (forall argv, (length argv < 2 \/ 3 < length argv)%nat ->
     main env argv = Done (1, EmptyString, text_line "Invalid arguments")) /\
  text_line "Filename required" <> text_line "Invalid command" /\
  text_line "Filename required" <> text_line "Invalid arguments".
Proof.
  repeat split; try reflexivity; try discriminate.
  - intros rest Hl. destruct rest as [|f [|g rest]]; [| |simpl in Hl; lia]; reflexivity.
  - intros. now apply main_other_command.
  - apply main_wrong_count.
Qed.

Lemma main_dispatch_witness :
  let env := one_file "grid.txt" (source ["1 1"; "1"]%string) in
  main env ["figsearch"; "--help"]%string
    = Done (0,
            text_line (source [ "Usage: figsearch COMMAND [FILE]";
                                "Commands:";
                                "  --help   Display this help message";
                                "  test     Check if the file contains valid bitmap";
                                "  hline    Find longest horizontal line" ]%string),
            EmptyString) /\
  main env ["figsearch"; "hline"]%string
    = Done (1, EmptyString, text_line "Filename required") /\
  main env ["figsearch"; "vline"; "grid.txt"]%string
    = Done (1, EmptyString, text_line "Invalid command") /\
  main env ["figsearch"; "hline"; "grid.txt"; "more"]%string
    = Done (1, EmptyString, text_line "Invalid arguments").
Proof.
  intros env.
  destruct (main_dispatch env "figsearch") as (Hhelp & _ & Hmiss & Hother & Hcount & _).
  split; [apply (Hhelp []); simpl; lia|].
  split; [exact Hmiss|].
  split; [apply (Hother "vline"%string ["grid.txt"%string]);
          [simpl; lia|discriminate|discriminate|discriminate]|].
  apply Hcount. simpl. lia.
Defined.

(** * The loader: the claims *)

(** C5, as amended. The loader returns a grid, and prints nothing, exactly
    when the file opens, its first integer is the height and its second the
    width of the grid, both positive, the allocation is granted, and after
    the dimensions [(width * height) mod 2^32] pixel integers can be read,
    each 0 or 1; the grid then holds that many cells, stored in the order
    read: for every row [y] and column [x] of the grid with [y * width + x]
    below that count, cell [y * width + x] is set exactly when pixel number
    [y * width + x] is 1. (When [width * height < 2^32] that is every row
    and column.) *)
Theorem load_bitmap_row_major (env : Env) (name : string) (b : Bitmap) (d : string) :
  load_bitmap env name = Done (Some b, d) <->
  d = EmptyString /\
  exists file rest0 pixels rest,
    fopen env name = Some file /\
    scan_integers 2 file = Some ([height b; width b], rest0) /\
    0 < height b <= UINT_MAX /\ 0 < width b <= UINT_MAX /\
    malloc_ok env (sizeof_Bitmap + (width b * height b) mod (UINT_MAX + 1)) = true /\
    scan_integers (Z.to_nat ((width b * height b) mod (UINT_MAX + 1))) rest0
      = Some (pixels, rest) /\
    Forall is_bit pixels /\
    Z.of_nat (length (data b)) = (width b * height b) mod (UINT_MAX + 1) /\
    forall x y, 0 <= x < width b -> 0 <= y < height b ->
      y * width b + x < (width b * height b) mod (UINT_MAX + 1) ->
      exists p, pixels !! Z.to_nat (y * width b + x) = Some p /\
                data b !! Z.to_nat (y * width b + x) = Some (p =? 1).
Proof.
  pose proof (Z.mod_pos_bound (width b * height b) (UINT_MAX + 1)
                ltac:(unfold UINT_MAX; lia)) as Hm.
  split.
  - intros Hload.
    destruct (load_bitmap_some env name b d Hload)
      as (file & rest0 & pixels & rest & Hd0 & F & Sd & Hh & Hw & M & Sp & Hbits & Hd).
    split; [exact Hd0|]. exists file, rest0, pixels, rest.
    pose proof (scan_integers_length _ _ _ _ Sp) as Hlen.
    repeat split; try easy.
    + rewrite Hd, length_fmap, Hlen. lia.
    + intros x y Hx Hy Hi.
      destruct (lookup_lt_is_Some_2 pixels (Z.to_nat (y * width b + x))) as [p Hp]; [nia|].
      exists p. split; [exact Hp|].
      pose proof (proj1 (Forall_lookup _ _) Hbits _ _ Hp) as Hb.
      rewrite Hd, list_lookup_fmap, Hp. simpl. now destruct Hb as [-> | ->].
  - intros (-> & file & rest0 & pixels & rest & F & Sd & Hh & Hw & M & Sp & Hbits & Hl & Hcells).
    pose proof (scan_integers_length _ _ _ _ Sp) as Hlen.
    assert (Hd : data b = (fun p => negb (p =? 0)) <$> pixels).
    { apply list_eq. intros i.
      destruct (Z_lt_ge_dec (Z.of_nat i) ((width b * height b) mod (UINT_MAX + 1)))
        as [Hi|Hi].
      - pose proof (Z.mod_le (width b * height b) (UINT_MAX + 1)
                      ltac:(nia) ltac:(unfold UINT_MAX; lia)) as Hle.
        pose proof (Z.div_mod (Z.of_nat i) (width b) ltac:(lia)) as Hdm.
        pose proof (Z.mod_pos_bound (Z.of_nat i) (width b) ltac:(lia)) as Hx.
        assert (Hy : 0 <= Z.of_nat i / width b < height b).
        { split; [apply Z.div_pos; lia|apply Z.div_lt_upper_bound; lia]. }
        destruct (Hcells (Z.of_nat i mod width b) (Z.of_nat i / width b) Hx Hy
                    ltac:(lia)) as (p & Hp & Hc).
        replace (Z.to_nat (Z.of_nat i / width b * width b + Z.of_nat i mod width b))
          with i in Hp, Hc by lia.
        pose proof (proj1 (Forall_lookup _ _) Hbits _ _ Hp) as Hb.
        rewrite Hc, list_lookup_fmap, Hp. simpl. now destruct Hb as [-> | ->].
      - rewrite !lookup_ge_None_2; [reflexivity| |lia].
        rewrite length_fmap. lia. }
    rewrite (load_bitmap_complete env name file rest0 (height b) (width b) pixels rest);
      try easy.
    rewrite <- Hd. now destruct b.
Qed.

Lemma load_bitmap_row_major_witness :
  let env := one_file "grid.txt" (source ["2 3"; "0 1 1"; "1 1 1"]%string) in
  let b := mkBitmap 3 2 [false; true; true; true; true; true] in
  load_bitmap env "grid.txt" = Done (Some b, EmptyString) /\
  exists file rest0 pixels rest,
    fopen env "grid.txt" = Some file /\
    scan_integers 2 file = Some ([height b; width b], rest0) /\
    0 < height b <= UINT_MAX /\ 0 < width b <= UINT_MAX /\
    malloc_ok env (sizeof_Bitmap + (width b * height b) mod (UINT_MAX + 1)) = true /\
    scan_integers (Z.to_nat ((width b * height b) mod (UINT_MAX + 1))) rest0
      = Some (pixels, rest) /\
    Forall is_bit pixels /\
    Z.of_nat (length (data b)) = (width b * height b) mod (UINT_MAX + 1) /\
    forall x y, 0 <= x < width b -> 0 <= y < height b ->
      y * width b + x < (width b * height b) mod (UINT_MAX + 1) ->
      exists p, pixels !! Z.to_nat (y * width b + x) = Some p /\
                data b !! Z.to_nat (y * width b + x) = Some (p =? 1).
Proof.
  intros env b.
  assert (Hload : load_bitmap env "grid.txt" = Done (Some b, EmptyString))
    by reflexivity.
  split; [exact Hload|].
  exact (proj2 (proj1 (load_bitmap_row_major env "grid.txt" b EmptyString) Hload)).
Defined.

(** C5 as it is written fails on a source whose dimensions multiply to
    2^32: the loader accepts it, reads no pixel at all and returns a grid of
    65536 rows and 65536 columns without a single cell. *)
Lemma load_bitmap_row_major_counterexample :
  let env := one_file "grid.txt" "65536 65536" in
  exists b, load_bitmap env "grid.txt" = Done (Some b, EmptyString) /\
    height b = 65536 /\ width b = 65536 /\
    0 < height b * width b /\
    length (data b) = 0%nat /\
    data b !! Z.to_nat (0 * width b + 0) = None.
Proof.
  intros env. exists (mkBitmap 65536 65536 []).
  split; [vm_compute; reflexivity|]. simpl. repeat split; lia.
Qed.

(** C10. The number of pixels the loader requires is [width * height]
    modulo 2^32: a grid it returns holds exactly that many cells, one for
    each pixel integer read. A source that declares 65536 rows and 65536
    columns, whose product is 0 modulo 2^32, is accepted without any
    pixel. *)
Theorem load_bitmap_area_modulo (env : Env) (name : string) :
  (forall b d, load_bitmap env name = Done (Some b, d) ->
     exists file rest0 pixels rest,
       fopen env name = Some file /\
       scan_integers 2 file = Some ([height b; width b], rest0) /\
       scan_integers (Z.to_nat ((width b * height b) mod (UINT_MAX + 1))) rest0
         = Some (pixels, rest) /\
       Z.of_nat (length pixels) = (width b * height b) mod (UINT_MAX + 1) /\
       Z.of_nat (length (data b)) = (width b * height b) mod (UINT_MAX + 1)) /\
  (fopen env name = Some "65536 65536"%string ->
   malloc_ok env sizeof_Bitmap = true ->
   (65536 * 65536) mod (UINT_MAX + 1) = 0 /\
   load_bitmap env name = Done (Some (mkBitmap 65536 65536 []), EmptyString)).
Proof.
  split.
  - intros b d Hload.
    destruct (load_bitmap_some env name b d Hload)
      as (file & rest0 & pixels & rest & _ & F & Sd & Hh & Hw & _ & Sp & Hbits & Hd).
    exists file, rest0, pixels, rest.
    pose proof (scan_integers_length _ _ _ _ Sp) as Hlen.
    pose proof (Z.mod_pos_bound (width b * height b) (UINT_MAX + 1)
                  ltac:(unfold UINT_MAX; lia)) as Hm.
    repeat split; try easy.
    + rewrite Hlen. lia.
    + rewrite Hd, length_fmap, Hlen. lia.
  - intros F M. split; [reflexivity|].
    unfold load_bitmap. rewrite F.
    change (fscanf_u_u "65536 65536") with
      (Done (A:=option (Z * Z * string)) (Some (65536, 65536, EmptyString))).
    cbn [obind]. unfold create_bitmap.
    change (sizeof_Bitmap + umul 65536 65536 * sizeof_bool) with sizeof_Bitmap.
    rewrite M. reflexivity.
Qed.

Lemma load_bitmap_area_modulo_witness :
  let env := one_file "grid.txt" "65536 65536" in
  (65536 * 65536) mod (UINT_MAX + 1) = 0 /\
  load_bitmap env "grid.txt" = Done (Some (mkBitmap 65536 65536 []), EmptyString).
Proof.
  intros env.
  apply (proj2 (load_bitmap_area_modulo env "grid.txt")); reflexivity.
Defined.

(** C7. For the source of three lines [2 3], [0 1 1], [1 1 1] the loader
    returns the grid of height 2 and width 3 with these cells, and [hline]
    prints [1 0 1 2] and a newline on standard output, nothing on the error
    stream, and exits with 0: the run of length 3 of row 1 wins over the run
    of length 2 of row 0. *)
Theorem hline_scenario (env : Env) (prog name : string) :
  fopen env name = Some (source ["2 3"; "0 1 1"; "1 1 1"]%string) ->
  malloc_ok env 14 = true ->
  load_bitmap env name
    = Done (Some (mkBitmap 3 2 [false; true; true; true; true; true]), EmptyString) /\
  find_hline (mkBitmap 3 2 [false; true; true; true; true; true])
    = Done (Some (mkLine (mkPoint 0 1) (mkPoint 2 1))) /\
  main env [prog; "hline"; name]%string
    = Done (0, text_line "1 0 1 2", EmptyString).
Proof.
  intros F M.
  assert (Hload : load_bitmap env name
            = Done (Some (mkBitmap 3 2 [false; true; true; true; true; true]),
                    EmptyString)).
  { unfold load_bitmap. rewrite F.
    change (fscanf_u_u (source ["2 3"; "0 1 1"; "1 1 1"]%string)) with
      (Done (A:=option (Z * Z * string))
         (Some (2, 3, String.append newline (source ["0 1 1"; "1 1 1"]%string)))).
    cbn [obind]. unfold create_bitmap.
    change (sizeof_Bitmap + umul 3 2 * sizeof_bool) with 14.
    rewrite M. reflexivity. }
  split; [exact Hload|]. split; [reflexivity|].
  rewrite main_hline, Hload. reflexivity.
Qed.

Lemma hline_scenario_witness :
  let env := one_file "grid.txt" (source ["2 3"; "0 1 1"; "1 1 1"]%string) in
  load_bitmap env "grid.txt"
    = Done (Some (mkBitmap 3 2 [false; true; true; true; true; true]), EmptyString) /\
  find_hline (mkBitmap 3 2 [false; true; true; true; true; true])
    = Done (Some (mkLine (mkPoint 0 1) (mkPoint 2 1))) /\
  main env ["figsearch"; "hline"; "grid.txt"]%string
    = Done (0, text_line "1 0 1 2", EmptyString).
Proof.
  intros env. apply (hline_scenario env "figsearch" "grid.txt"); reflexivity.
Defined.

(** C6, as amended. The loader checks in this order and returns no grid,
    with the diagnostic of the first check that fails, exactly when: the
    file cannot be opened; one of the two dimension conversions does not
    match; a dimension is 0; the allocation is refused; or, among the first
    [(width * height) mod 2^32] pixel conversions, one does not match or
    yields an integer other than 0 and 1 (the value counts, not the
    spelling). Text after the pixels required is not looked at: appended to
    a source that loads, behind a character that is no digit, it changes
    neither the outcome nor the grid. *)
Theorem load_bitmap_fails_exactly (env : Env) (name : string) :
  (forall d, load_bitmap env name = Done (None, d) <-> load_failure env name d) /\
  (forall file b d c extra,
     fopen env name = Some file -> isdigit c = false ->
     load_bitmap env name = Done (Some b, d) ->
     load_bitmap (with_file env name (String.append file (String c extra))) name
     = Done (Some b, d)).
Proof.
  split.
  - intros d. apply load_bitmap_none.
  - intros file b d c extra. apply load_bitmap_extra.
Qed.

Lemma load_bitmap_fails_exactly_witness :
  let short := one_file "grid.txt" (source ["2 2"; "1 0"; "1"]%string) in
  let whole := one_file "grid.txt" (source ["1 1"; "1"]%string) in
  load_failure short "grid.txt" (text_line "Invalid pixel value") /\
  load_bitmap
    (with_file whole "grid.txt"
       (String.append (source ["1 1"; "1"]%string) (String " " "and more")))
    "grid.txt"
  = Done (Some (mkBitmap 1 1 [true]), EmptyString).
Proof.
  intros short whole. split.
  - apply (proj1 (load_bitmap_fails_exactly short "grid.txt")). reflexivity.
  - apply (proj2 (load_bitmap_fails_exactly whole "grid.txt")); reflexivity.
Defined.

(** C6 as it is written fails three times: a pixel spelled [01] is not the
    literal 1 and is accepted; a source of 65536 by 65536 has fewer pixels
    than [height * width] and is accepted; and a refused allocation makes
    the loader fail on a source that has none of the defects listed. *)
Lemma load_bitmap_fails_exactly_counterexample :
  load_bitmap (one_file "grid.txt" (source ["1 1"; "01"]%string)) "grid.txt"
    = Done (Some (mkBitmap 1 1 [true]), EmptyString) /\
  load_bitmap (one_file "grid.txt" "65536 65536") "grid.txt"
    = Done (Some (mkBitmap 65536 65536 []), EmptyString) /\
  load_bitmap (mkEnv (fun _ => Some (source ["1 1"; "1"]%string)) (fun _ => false))
              "grid.txt"
    = Done (None, text_line "Memory allocation failed").
Proof. repeat split; vm_compute; reflexivity. Qed.

(** * Further properties of figsearch *)

(** ** Decimal text read back *)

Lemma string_app_nil_r (s : string) : String.append s EmptyString = s.
Proof. induction s as [|c s IH]; simpl; [reflexivity|now rewrite IH]. Qed.

Lemma string_app_assoc (s t u : string) :
  String.append (String.append s t) u = String.append s (String.append t u).
Proof. induction s as [|c s IH]; simpl; [reflexivity|now rewrite IH]. Qed.

Lemma ends_number_app (s rest : string) (acc : Z) :
  ends_number rest = true ->
  scan_digits (String.append s rest) acc
  = (fst (scan_digits s acc), String.append (snd (scan_digits s acc)) rest).
Proof.
  intros Hr. destruct rest as [|c t].
  - rewrite !string_app_nil_r. now destruct (scan_digits s acc).
  - simpl in Hr. apply negb_true_iff in Hr. now apply scan_digits_app.
Qed.

Lemma scan_digits_uint (d : Decimal.uint) (acc : Z) :
  scan_digits (NilEmpty.string_of_uint d) acc = (uint_value d acc, EmptyString).
Proof.
  revert acc. induction d; intros acc; simpl; try reflexivity;
    match goal with
    | |- context [digit_value ?c] =>
        let v := eval vm_compute in (digit_value c) in
        change (digit_value c) with v
    end;
    rewrite IHd; do 2 f_equal; lia.
Qed.

Lemma of_uint_acc_value (d : Decimal.uint) (acc : positive) :
  Z.pos (Pos.of_uint_acc d acc) = uint_value d (Z.pos acc).
Proof.
  revert acc. induction d; intros acc; simpl; try reflexivity;
    rewrite IHd; f_equal; lia.
Qed.

Lemma of_uint_value (d : Decimal.uint) :
  Z.of_N (Pos.of_uint d) = uint_value d 0.
Proof.
  induction d; simpl; try reflexivity; try exact IHd;
    rewrite of_uint_acc_value; reflexivity.
Qed.

Lemma print_unsigned_head (z : Z) :
  exists c t, print_unsigned z = String c t /\ isdigit c = true.
Proof.
  unfold print_unsigned. destruct (N.to_uint (Z.to_N z)); simpl; eauto.
Qed.

Lemma scan_digits_uint_zero (d : Decimal.uint) :
  scan_digits (NilZero.string_of_uint d) 0 = (uint_value d 0, EmptyString).
Proof. destruct d; try apply scan_digits_uint. reflexivity. Qed.

Lemma scan_digits_print (z : Z) (rest : string) :
  0 <= z -> ends_number rest = true ->
  scan_digits (String.append (print_unsigned z) rest) 0 = (z, rest).
Proof.
  intros Hz Hr. rewrite ends_number_app by exact Hr.
  unfold print_unsigned. rewrite scan_digits_uint_zero. simpl.
  rewrite <- of_uint_value.
  pose proof (Unsigned.of_to (Z.to_N z)) as Hn. unfold N.of_uint in Hn.
  rewrite Hn. f_equal. lia.
Qed.

(** [%u] prints what the integer conversion of [fscanf] reads. *)
Lemma scan_integer_print (z : Z) (rest : string) :
  0 <= z -> ends_number rest = true ->
  scan_integer (String.append (print_unsigned z) rest) = Some (z, rest).
Proof.
  intros Hz Hr. pose proof (scan_digits_print z rest Hz Hr) as Hd.
  destruct (print_unsigned_head z) as (c & t & Hp & Hc).
  rewrite Hp in *. unfold scan_integer.
  change (String.append (String c t) rest) with (String c (String.append t rest)) in *.
  assert (Hsp : isspace c = false).
  { pose proof Hc as Hc'. unfold isdigit in Hc'. cbv zeta in Hc'.
    apply andb_true_iff in Hc' as [A B]. apply Z.leb_le in A.
    unfold isspace. cbv zeta.
    destruct (Z.eqb_spec (Z.of_nat (nat_of_ascii c)) 32); [lia|]. simpl.
    apply andb_false_iff. right. apply Z.leb_gt. lia. }
  cbn [skip_space]. rewrite Hsp.
  assert (Hm : Ascii.eqb c "-" = false).
  { apply Ascii.eqb_neq. intros ->. discriminate. }
  assert (Hpl : Ascii.eqb c "+" = false).
  { apply Ascii.eqb_neq. intros ->. discriminate. }
  cbn [scan_sign]. rewrite Hm, Hpl.
  rewrite Hc. now rewrite Hd.
Qed.

Lemma scan_integer_space (s : string) :
  scan_integer (String " " s) = scan_integer s.
Proof. reflexivity. Qed.

Lemma scan_integers_print (n : nat) (z : Z) (rest : string) :
  0 <= z -> ends_number rest = true ->
  scan_integers (S n) (String.append (print_unsigned z) rest)
  = match scan_integers n rest with
    | Some (vs, r) => Some (z :: vs, r)
    | None => None
    end.
Proof. intros Hz Hr. simpl. now rewrite scan_integer_print. Qed.

Lemma scan_integers_space (n : nat) (s : string) :
  scan_integers (S n) (String " " s) = scan_integers (S n) s.
Proof. reflexivity. Qed.

(** X1. The line that [print_line] prints is read back by four integer
    conversions of [fscanf] as the start row, the start column, the end row
    and the end column, with the newline left over. *)
Theorem print_line_reads_back (l : Line) :
  0 <= pt_y (l_start l) -> 0 <= pt_x (l_start l) ->
  0 <= pt_y (l_end l) -> 0 <= pt_x (l_end l) ->
  scan_integers 4 (print_line l)
  = Some ([pt_y (l_start l); pt_x (l_start l); pt_y (l_end l); pt_x (l_end l)],
          newline).
Proof.
  intros H1 H2 H3 H4. unfold print_line, text_line. cbn [String.concat].
  change (String.append (String " " EmptyString) ?s) with (String " " s).
  rewrite scan_integers_print by easy.
  repeat (change (String.append (String " " EmptyString) ?s) with (String " " s)).
  rewrite scan_integers_space, scan_integers_print by easy.
  rewrite scan_integers_space, scan_integers_print by easy.
  rewrite scan_integers_space, scan_integers_print by easy.
  reflexivity.
Qed.

Lemma print_line_reads_back_witness :
  scan_integers 4 (print_line (mkLine (mkPoint 0 12) (mkPoint 305 12)))
  = Some ([12; 0; 12; 305], newline).
Proof.
  apply (print_line_reads_back (mkLine (mkPoint 0 12) (mkPoint 305 12)));
    simpl; lia.
Defined.

(** ** Every valid grid can be loaded *)

Lemma ends_number_cells_text (cells : list bool) : ends_number (cells_text cells) = true.
Proof. destruct cells; reflexivity. Qed.

Lemma scan_integers_cells_text (cells : list bool) :
  scan_integers (length cells) (cells_text cells)
  = Some ((fun c : bool => if c then 1 else 0) <$> cells, EmptyString).
Proof.
  induction cells as [|c cells IH]; [reflexivity|].
  cbn [length cells_text]. rewrite scan_integers_space.
  assert (Hc : String (if c then "1" else "0")%char (cells_text cells)
               = String.append (print_unsigned (if c then 1 else 0)) (cells_text cells))
    by now destruct c.
  rewrite Hc, scan_integers_print, IH;
    [reflexivity|destruct c; lia|apply ends_number_cells_text].
Qed.

(** X2. Every valid grid can be loaded: from a file that holds its height,
    its width and its cells row by row, in decimal with single spaces
    between them, the loader returns exactly that grid and prints nothing,
    and [test] exits with 0. *)
Theorem load_bitmap_grid_text (env : Env) (prog name : string) (b : Bitmap) :
  valid_grid b ->
  fopen env name = Some (grid_text b) ->
  malloc_ok env (sizeof_Bitmap + width b * height b) = true ->
  load_bitmap env name = Done (Some b, EmptyString) /\
  main env [prog; "test"%string; name] = Done (0, EmptyString, EmptyString).
Proof.
  intros Hv F M.
  pose proof (valid_grid_width b Hv) as Hw.
  pose proof (valid_grid_height b Hv) as Hh.
  destruct Hv as (_ & _ & Hl & Hm).
  assert (Hmod : (width b * height b) mod (UINT_MAX + 1) = width b * height b).
  { apply Z.mod_small. lia. }
  assert (Hload : load_bitmap env name = Done (Some b, EmptyString)).
  { rewrite (load_bitmap_complete env name (grid_text b) (cells_text (data b))
               (height b) (width b)
               ((fun c : bool => if c then 1 else 0) <$> data b) EmptyString);
      try easy; try lia.
    - do 3 f_equal. destruct b as [w h cells]. simpl. f_equal.
      rewrite <- list_fmap_compose. rewrite <- (list_fmap_id cells) at 2.
      apply list_fmap_ext. now intros _ [] _.
    - unfold grid_text.
      rewrite scan_integers_print, scan_integers_space, scan_integers_print;
        try easy; try lia. apply ends_number_cells_text.
    - now rewrite Hmod.
    - rewrite Hmod, <- Hl, Nat2Z.id. apply scan_integers_cells_text.
    - apply Forall_fmap, Forall_forall. intros [] _; [now right|now left]. }
  split; [exact Hload|].
  unfold main. simpl. unfold test_bitmap. now rewrite Hload.
Qed.

Lemma load_bitmap_grid_text_witness :
  let b := grid [[false; true]; [true; true]] in
  let env := one_file "grid.txt" (grid_text b) in
  load_bitmap env "grid.txt" = Done (Some b, EmptyString) /\
  main env ["figsearch"; "test"; "grid.txt"]%string = Done (0, EmptyString, EmptyString).
Proof.
  intros b env. apply (load_bitmap_grid_text env "figsearch" "grid.txt" b).
  - unfold valid_grid, UINT_MAX. simpl. lia.
  - reflexivity.
  - reflexivity.
Defined.

(** ** What the loader hands to the search *)

Lemma load_bitmap_cells (env : Env) (name : string) (b : Bitmap) (d : string) :
  load_bitmap env name = Done (Some b, d) ->
  d = EmptyString /\ 0 < height b <= UINT_MAX /\ 0 < width b <= UINT_MAX /\
  Z.of_nat (length (data b)) = (width b * height b) mod (UINT_MAX + 1).
Proof.
  intros Hload.
  destruct (load_bitmap_some env name b d Hload)
    as (file & rest0 & pixels & rest & Hd0 & _ & _ & Hh & Hw & _ & Sp & _ & Hd).
  pose proof (scan_integers_length _ _ _ _ Sp) as Hlen.
  pose proof (Z.mod_pos_bound (width b * height b) (UINT_MAX + 1)
                ltac:(unfold UINT_MAX; lia)) as Hm.
  repeat split; try easy. rewrite Hd, length_fmap, Hlen. lia.
Qed.

(** X3. A grid that the loader returns is valid whenever the product of its
    dimensions is below 2^32, and [hline] on that file then ends in one of
    two ways: it prints a line and exits with 0, or it prints [No line found]
    on the error stream and exits with 1. *)
Theorem load_bitmap_valid (env : Env) (prog name : string) (b : Bitmap) (d : string) :
  load_bitmap env name = Done (Some b, d) ->
  width b * height b <= UINT_MAX ->
  valid_grid b /\
  ((exists l, main env [prog; "hline"; name]%string
              = Done (0, print_line l, EmptyString)) \/
   main env [prog; "hline"; name]%string
   = Done (1, EmptyString, text_line "No line found")).
Proof.
  intros Hload Hm.
  destruct (load_bitmap_cells env name b d Hload) as (-> & Hh & Hw & Hl).
  assert (Hv : valid_grid b).
  { repeat split; try lia. rewrite Hl. apply Z.mod_small. nia. }
  split; [exact Hv|].
  rewrite main_hline, Hload. cbn [obind].
  rewrite (find_hline_naive b Hv). cbn [obind].
  destruct (naive_hline b) as [l|]; [left; now exists l|now right].
Qed.

Lemma load_bitmap_valid_witness :
  let env := one_file "grid.txt" (source ["1 3"; "1 0 1"]%string) in
  let b := mkBitmap 3 1 [true; false; true] in
  valid_grid b /\
  ((exists l, main env ["figsearch"; "hline"; "grid.txt"]%string
              = Done (0, print_line l, EmptyString)) \/
   main env ["figsearch"; "hline"; "grid.txt"]%string
   = Done (1, EmptyString, text_line "No line found")).
Proof.
  intros env b.
  apply (load_bitmap_valid env "figsearch" "grid.txt" b EmptyString).
  - reflexivity.
  - unfold UINT_MAX. simpl. lia.
Defined.

(** ** Exit codes and streams *)

Lemma load_failure_nonempty (env : Env) (name d : string) :
  load_failure env name d -> d <> EmptyString.
Proof. destruct 1; discriminate. Qed.

Lemma load_bitmap_done (env : Env) (name : string) (ob : option Bitmap) (d : string) :
  load_bitmap env name = Done (ob, d) ->
  (exists b, ob = Some b /\ d = EmptyString) \/
  (ob = None /\ load_failure env name d).
Proof.
  intros H. destruct ob as [b|].
  - left. exists b. split; [reflexivity|].
    now destruct (load_bitmap_cells env name b d H).
  - right. split; [reflexivity|]. now apply load_bitmap_none.
Qed.

(** X4. [test FILE] exits with 0 exactly when the loader returns a grid, and
    then prints nothing at all; it exits with 1 exactly when the loader
    fails, and then the error stream holds the loader's diagnostic and
    standard output nothing. *)
Theorem main_test (env : Env) (prog name : string) (code : Z) (out err : string) :
  main env [prog; "test"; name]%string = Done (code, out, err) <->
  (code = 0 /\ out = EmptyString /\ err = EmptyString /\
   exists b, load_bitmap env name = Done (Some b, EmptyString)) \/
  (code = 1 /\ out = EmptyString /\ load_failure env name err).
Proof.
  change (main env [prog; "test"; name]%string)
    with (let* (code, err) := test_bitmap env name in Done (code, EmptyString, err)).
  unfold test_bitmap. split.
  - destruct (load_bitmap env name) as [[ob d]| | |] eqn:L; try discriminate.
    cbn [obind].
    destruct (load_bitmap_done env name ob d L) as [(b & -> & ->)|(-> & Hf)];
      cbn [obind]; intros [= <- <- <-].
    + left. repeat split; try easy. now exists b.
    + right. easy.
  - intros [(-> & -> & -> & b & L)|(-> & -> & Hf)].
    + now rewrite L.
    + apply load_bitmap_none in Hf. now rewrite Hf.
Qed.

Lemma main_test_witness :
  main (one_file "grid.txt" (source ["2 2"; "1 0"; "1"]%string))
       ["figsearch"; "test"; "grid.txt"]%string
  = Done (1, EmptyString, text_line "Invalid pixel value").
Proof.
  apply (proj2 (main_test _ "figsearch" "grid.txt" 1 EmptyString
                  (text_line "Invalid pixel value"))).
  right. repeat split. apply load_bitmap_none. reflexivity.
Defined.

(** X5. Whatever the arguments and the files, when [main] returns its exit
    code is 0 or 1; with 1 nothing was printed on standard output and the
    error stream holds a diagnostic; with 0 the error stream is empty. *)
Theorem main_exit_code (env : Env) (argv : list string) (code : Z) (out err : string) :
  main env argv = Done (code, out, err) ->
  (code = 0 /\ err = EmptyString) \/
  (code = 1 /\ out = EmptyString /\ err <> EmptyString).
Proof.
  destruct (Nat.lt_ge_cases (length argv) 2) as [Hlt|Hge];
    [|destruct (Nat.lt_ge_cases 3 (length argv)) as [Hgt|Hle]].
  - rewrite main_wrong_count by now left. intros [= <- <- <-]. now right.
  - rewrite main_wrong_count by now right. intros [= <- <- <-]. now right.
  - destruct argv as [|prog [|command rest]]; try (simpl in Hge; lia).
    assert (Hrest : rest = [] \/ exists name, rest = [name]).
    { destruct rest as [|n [|? ?]]; [now left|right; now exists n|simpl in Hle; lia]. }
    assert (Hargc : ((Z.of_nat (length (prog :: command :: rest)) <? 2)
                     || (3 <? Z.of_nat (length (prog :: command :: rest)))) = false).
    { apply orb_false_iff. split; apply Z.ltb_ge; simpl in *; lia. }
    unfold main. rewrite Hargc. cbn [lookup list_lookup].
    destruct (String.eqb command "--help"); [intros [= <- <- <-]; now left|].
    destruct (String.eqb command "test").
    { destruct Hrest as [->|(name & ->)]; simpl.
      - intros [= <- <- <-]. now right.
      - unfold test_bitmap.
        destruct (load_bitmap env name) as [[ob d]| | |] eqn:L; try discriminate.
        cbn [obind].
        destruct (load_bitmap_done env name ob d L) as [(b & -> & ->)|(-> & Hf)];
          cbn [obind]; intros [= <- <- <-]; [now left|right].
        repeat split. now apply (load_failure_nonempty env name). }
    destruct (String.eqb command "hline"); [|intros [= <- <- <-]; now right].
    destruct Hrest as [->|(name & ->)]; simpl.
    + intros [= <- <- <-]. now right.
    + destruct (load_bitmap env name) as [[ob d]| | |] eqn:L; try discriminate.
      cbn [obind].
      destruct (load_bitmap_done env name ob d L) as [(b & -> & ->)|(-> & Hf)].
      * destruct (find_hline b) as [[l|]| | |]; try discriminate; cbn [obind];
          intros [= <- <- <-]; [now left|now right].
      * intros [= <- <- <-]. right. repeat split.
        now apply (load_failure_nonempty env name).
Qed.

Lemma main_exit_code_witness :
  (1 = 0 /\ text_line "Invalid command" = EmptyString) \/
  (1 = 1 /\ EmptyString = EmptyString /\ text_line "Invalid command" <> EmptyString).
Proof.
  apply (main_exit_code (one_file "grid.txt" "1 1 1")
           ["figsearch"; "vline"; "grid.txt"]%string 1 EmptyString
           (text_line "Invalid command")).
  reflexivity.
Defined.

(** ** Dimensions whose product is a multiple of 2^32 *)

(** With no cell at all the search reads outside [data] at once. *)
Lemma find_hline_no_cells (w h : Z) :
  0 < w <= UINT_MAX -> 0 < h -> find_hline (mkBitmap w h []) = Undefined.
Proof.
  intros Hw Hh. unfold find_hline, find_hline_monitored. cbn [height].
  destruct (Z.to_nat h) as [|fh] eqn:Fh; [lia|].
  cbn [row_loop height width].
  assert ((0 <? h) = true) as -> by (apply Z.ltb_lt; lia).
  destruct (Z.to_nat w) as [|fw] eqn:Fw; [lia|].
  cbn [column_loop width length_final].
  rewrite usub_small by lia. rewrite Z.sub_0_r.
  assert ((0 <? w) = true) as -> by (apply Z.ltb_lt; lia).
  reflexivity.
Qed.

(** X6. When the two dimensions of a source are positive and their product
    is a multiple of 2^32, the loader accepts the source without reading a
    pixel and returns a grid without cells; [test] exits with 0, and [hline]
    reads outside the grid's data, which is undefined behaviour. *)
Theorem load_bitmap_zero_area (env : Env) (prog name file rest : string) (h w : Z) :
  fopen env name = Some file ->
  scan_integers 2 file = Some ([h; w], rest) ->
  0 < h <= UINT_MAX -> 0 < w <= UINT_MAX ->
  (w * h) mod (UINT_MAX + 1) = 0 ->
  malloc_ok env sizeof_Bitmap = true ->
  load_bitmap env name = Done (Some (mkBitmap w h []), EmptyString) /\
  main env [prog; "test"; name]%string = Done (0, EmptyString, EmptyString) /\
  find_hline (mkBitmap w h []) = Undefined /\
  main env [prog; "hline"; name]%string = Undefined.
Proof.
  intros F Sd Hh Hw Hz M.
  assert (Hload : load_bitmap env name = Done (Some (mkBitmap w h []), EmptyString)).
  { rewrite (load_bitmap_complete env name file rest h w [] rest); try easy.
    - now rewrite Hz, Z.add_0_r.
    - now rewrite Hz. }
  pose proof (find_hline_no_cells w h Hw ltac:(lia)) as Hf.
  split; [exact Hload|]. split; [|split; [exact Hf|]].
  - unfold main. simpl. unfold test_bitmap. now rewrite Hload.
  - rewrite main_hline, Hload. cbn [obind]. now rewrite Hf.
Qed.

Lemma load_bitmap_zero_area_witness :
  let env := one_file "grid.txt" "131072 32768" in
  load_bitmap env "grid.txt" = Done (Some (mkBitmap 32768 131072 []), EmptyString) /\
  main env ["figsearch"; "test"; "grid.txt"]%string
    = Done (0, EmptyString, EmptyString) /\
  find_hline (mkBitmap 32768 131072 []) = Undefined /\
  main env ["figsearch"; "hline"; "grid.txt"]%string = Undefined.
Proof.
  intros env.
  apply (load_bitmap_zero_area env "figsearch" "grid.txt" "131072 32768"
           EmptyString 131072 32768); try reflexivity; unfold UINT_MAX; lia.
Defined.

(** ** The search finds no line exactly on a grid without a set cell *)

Lemma scan_integers_line (a b c d : Z) :
  0 <= a -> 0 <= b -> 0 <= c -> 0 <= d ->
  scan_integers 4
    (String.concat (String " "%char EmptyString)
       [ print_unsigned a; print_unsigned b; print_unsigned c;
         text_line (print_unsigned d) ])
  = Some ([a; b; c; d], newline).
Proof.
  intros Ha Hb Hc Hd. unfold text_line. cbn [String.concat].
  repeat (change (String.append (String " " EmptyString) ?s) with (String " " s)).
  rewrite scan_integers_print by easy.
  rewrite scan_integers_space, scan_integers_print by easy.
  rewrite scan_integers_space, scan_integers_print by easy.
  rewrite scan_integers_space, scan_integers_print by easy.
  reflexivity.
Qed.

(** C4, as amended. For a grid that the loader returns and whose
    dimensions multiply to less than 2^32, [find_hline] returns 1 exactly
    when the grid has no set cell. On such a grid with no set cell [hline]
    prints [No line found] on the error stream, nothing on standard output,
    and exits with 1; with a set cell it prints the line found on standard
    output, as four decimal numbers that read back as the row and column of
    its start and the row and column of its end, followed by a newline,
    prints nothing on the error stream, and exits with 0. *)
Theorem hline_none_iff_no_set_cell (env : Env) (prog name : string) (b : Bitmap)
        (d : string) :
  load_bitmap env name = Done (Some b, d) ->
  width b * height b <= UINT_MAX ->
  (find_hline b = Done None <-> ~ has_set_cell b) /\
  (~ has_set_cell b ->
     main env [prog; "hline"; name]%string
     = Done (1, EmptyString, text_line "No line found")) /\
  (has_set_cell b ->
     exists l, find_hline b = Done (Some l) /\
       main env [prog; "hline"; name]%string = Done (0, print_line l, EmptyString) /\
       scan_integers 4 (print_line l)
       = Some ([pt_y (l_start l); pt_x (l_start l); pt_y (l_end l); pt_x (l_end l)],
               newline)).
Proof.
  intros Hload Hm.
  destruct (load_bitmap_cells env name b d Hload) as (-> & Hh & Hw & Hl).
  assert (Hv : valid_grid b).
  { repeat split; try lia. rewrite Hl. apply Z.mod_small. nia. }
  pose proof (naive_hline_none b ltac:(lia) ltac:(lia)) as Hnone.
  rewrite main_hline, Hload. cbn [obind].
  rewrite (find_hline_naive b Hv). cbn [obind].
  split; [|split].
  - rewrite <- Hnone. split; [now intros [= ->]|now intros ->].
  - intros Hno. apply Hnone in Hno. now rewrite Hno.
  - intros Hset. destruct (naive_hline b) as [l|] eqn:HN.
    + exists l. split; [reflexivity|]. split; [reflexivity|].
      destruct (naive_hline_some b l ltac:(lia) ltac:(lia) HN)
        as (Hy & ((Hy0 & Hs0 & Hse & _) & _) & _).
      unfold print_line. apply scan_integers_line; lia.
    + exfalso. exact (proj1 Hnone eq_refl Hset).
Qed.

Lemma hline_none_iff_no_set_cell_witness :
  let env := one_file "grid.txt" (source ["1 1"; "0"]%string) in
  let b := mkBitmap 1 1 [false] in
  (find_hline b = Done None <-> ~ has_set_cell b) /\
  (~ has_set_cell b ->
     main env ["figsearch"; "hline"; "grid.txt"]%string
     = Done (1, EmptyString, text_line "No line found")) /\
  (has_set_cell b ->
     exists l, find_hline b = Done (Some l) /\
       main env ["figsearch"; "hline"; "grid.txt"]%string
       = Done (0, print_line l, EmptyString) /\
       scan_integers 4 (print_line l)
       = Some ([pt_y (l_start l); pt_x (l_start l); pt_y (l_end l); pt_x (l_end l)],
               newline)).
Proof.
  intros env b.
  apply (hline_none_iff_no_set_cell env "figsearch" "grid.txt" b EmptyString).
  - reflexivity.
  - unfold UINT_MAX. simpl. lia.
Defined.

(** C4 as it is written fails on a source whose dimensions multiply to
    2^32: the loader returns a grid of 65536 rows and 65536 columns without
    a single cell, so without a set cell, and on it [find_hline] does not
    return 1 and [hline] prints no diagnostic and has no exit code of 1:
    the search reads the first cell outside the grid's data, which is
    undefined behaviour. *)
Lemma hline_none_iff_no_set_cell_counterexample :
  let env := one_file "grid.txt" "65536 65536" in
  exists b, load_bitmap env "grid.txt" = Done (Some b, EmptyString) /\
    ~ has_set_cell b /\
    find_hline b = Undefined /\
    find_hline b <> Done None /\
    main env ["figsearch"; "hline"; "grid.txt"]%string = Undefined /\
    main env ["figsearch"; "hline"; "grid.txt"]%string
    <> Done (1, EmptyString, text_line "No line found").
Proof.
  intros env. exists (mkBitmap 65536 65536 []).
  assert (Hload : load_bitmap env "grid.txt"
                  = Done (Some (mkBitmap 65536 65536 []), EmptyString))
    by (vm_compute; reflexivity).
  assert (Hf : find_hline (mkBitmap 65536 65536 []) = Undefined)
    by (apply find_hline_no_cells; unfold UINT_MAX; lia).
  assert (Hmain : main env ["figsearch"; "hline"; "grid.txt"]%string = Undefined).
  { rewrite main_hline, Hload. cbn [obind]. now rewrite Hf. }
  split; [exact Hload|]. split.
  - intros (x & y & _ & _ & Hc). unfold cell in Hc. simpl in Hc.
    discriminate Hc.
  - rewrite Hf, Hmain. repeat split; discriminate.
Qed.

(** ** A first row that is entirely set *)

Lemma extend_loop_all_set (fuel : nat) (b : Bitmap) (x : Z) (e : Point) (i : Z) :
  width b <= UINT_MAX -> 0 <= i <= width b ->
  (forall j, 0 <= j < width b -> data b !! Z.to_nat j = Some true) ->
  width b - i <= Z.of_nat fuel ->
  extend_loop fuel b 0 x e i
  = Done (x, if i <? width b then mkPoint (width b - 1) (pt_y e) else e).
Proof.
  intros Hw Hi Hset. revert e i Hi.
  induction fuel as [|fuel IH]; intros e i Hi Hf.
  - simpl. destruct (i <? width b) eqn:E; [apply Z.ltb_lt in E; lia|reflexivity].
  - cbn [extend_loop]. destruct (i <? width b) eqn:E; [|reflexivity].
    apply Z.ltb_lt in E.
    assert (Hr : read_data b (uadd (umul 0 (width b)) i) = Done true).
    { unfold umul. rewrite Z.mul_0_l. change (wrap 0) with 0.
      rewrite uadd_small by lia. unfold read_data. simpl. now rewrite Hset by lia. }
    rewrite Hr. cbn [obind negb]. rewrite uadd_small by lia.
    rewrite IH by (simpl; lia). simpl.
    destruct (i + 1 <? width b) eqn:E2; [reflexivity|].
    apply Z.ltb_ge in E2. f_equal. f_equal. f_equal. lia.
Qed.

Lemma row_loop_full (fuel : nat) (b : Bitmap) (y : Z) (st : Best) :
  0 < width b <= UINT_MAX -> height b <= UINT_MAX -> 0 <= y ->
  length_final st = width b ->
  height b - y <= Z.of_nat fuel ->
  row_loop (fun _ _ => true) fuel b y st = Done st.
Proof.
  intros Hw Hh. revert y.
  induction fuel as [|fuel IH]; intros y Hy HL Hf.
  - simpl. destruct (y <? height b) eqn:E; [apply Z.ltb_lt in E; lia|reflexivity].
  - cbn [row_loop]. destruct (y <? height b) eqn:E; [|reflexivity].
    apply Z.ltb_lt in E.
    assert (Hc : column_loop (fun _ _ => true) (Z.to_nat (width b)) b y 0 st = Done st).
    { destruct (Z.to_nat (width b)); simpl; rewrite HL, usub_small by lia;
        now rewrite Z.sub_diag. }
    rewrite Hc. cbn [obind]. rewrite uadd_small by lia. apply IH; lia.
Qed.

Lemma column_loop_full_row (fuel : nat) (b : Bitmap) :
  0 < width b <= UINT_MAX ->
  (forall j, 0 <= j < width b -> data b !! Z.to_nat j = Some true) ->
  column_loop (fun _ _ => true) (S fuel) b 0 0 (mkBest None None 0)
  = Done (mkBest (Some (mkPoint 0 0)) (Some (mkPoint (width b - 1) 0)) (width b)).
Proof.
  intros Hw Hset.
  cbn [column_loop length_final]. rewrite usub_small by lia. rewrite Z.sub_0_r.
  assert ((0 <? width b) = true) as -> by (apply Z.ltb_lt; lia).
  assert (Hr : read_data b (uadd (umul 0 (width b)) 0) = Done true).
  { unfold umul. rewrite Z.mul_0_l. change (uadd (wrap 0) 0) with 0.
    unfold read_data. now rewrite (Hset 0) by lia. }
  rewrite Hr. cbn [obind]. change (uadd 0 1) with 1.
  rewrite (extend_loop_all_set _ b 0 (mkPoint 0 0) 1) by (easy || lia).
  cbn [obind pt_y].
  assert (He : (if 1 <? width b then mkPoint (width b - 1) 0 else mkPoint 0 0)
               = mkPoint (width b - 1) 0).
  { destruct (1 <? width b) eqn:E1; [reflexivity|].
    apply Z.ltb_ge in E1. f_equal. lia. }
  rewrite He. unfold hline_length. cbn [pt_x].
  rewrite usub_small by lia. rewrite !uadd_small by lia. cbn [orb Z.eqb].
  replace (width b - 1 - 0 + 1) with (width b) by lia.
  destruct fuel; simpl; rewrite usub_small by lia; now rewrite Z.sub_diag.
Qed.

(** X7. When every cell of the first row is set the search returns that
    whole row, whatever the rows below hold; it reads no cell after the
    first row, so the result is the same even if the data of the other rows
    is missing. *)
Theorem find_hline_full_first_row (b : Bitmap) :
  0 < width b <= UINT_MAX -> 0 < height b <= UINT_MAX ->
  (forall j, 0 <= j < width b -> data b !! Z.to_nat j = Some true) ->
  find_hline b = Done (Some (mkLine (mkPoint 0 0) (mkPoint (width b - 1) 0))).
Proof.
  intros Hw Hh Hset. unfold find_hline, find_hline_monitored.
  replace (Z.to_nat (height b)) with (S (Z.to_nat (height b - 1))) by lia.
  cbn [row_loop].
  assert ((0 <? height b) = true) as -> by (apply Z.ltb_lt; lia).
  replace (Z.to_nat (width b)) with (S (Z.to_nat (width b - 1))) by lia.
  rewrite (column_loop_full_row _ b Hw Hset). cbn [obind].
  change (uadd 0 1) with 1.
  rewrite row_loop_full; try easy; try lia.
  cbn [obind length_final start_final end_final].
  destruct (width b =? 0) eqn:E0; [apply Z.eqb_eq in E0; lia|reflexivity].
Qed.

Lemma find_hline_full_first_row_witness :
  find_hline (mkBitmap 3 4 [true; true; true; false])
  = Done (Some (mkLine (mkPoint 0 0) (mkPoint (3 - 1) 0))).
Proof.
  apply (find_hline_full_first_row (mkBitmap 3 4 [true; true; true; false]));
    try (unfold UINT_MAX; simpl; lia).
  intros j Hj. simpl in Hj.
  assert (j = 0 \/ j = 1 \/ j = 2) as [->|[->| ->]] by lia; reflexivity.
Defined.


(** * tnine: matching *)

Lemma tnine_all_ascii (c : ascii) : c ∈ Tnine.all_ascii.
Proof.
  unfold Tnine.all_ascii. apply list_elem_of_fmap.
  exists (nat_of_ascii c). split; [now rewrite ascii_nat_embedding|].
  apply elem_of_seq. pose proof (nat_ascii_bounded c). lia.
Qed.

(** The test of the source on two characters is the keypad. *)
Lemma tnine_key_test_keypad (c q : ascii) :
  c <> Tnine.NUL ->
  Tnine.key_test c q = true <-> Tnine.keypad c = Some q.
Proof.
  intros Hc.
  assert (H : forallb (fun c => forallb (fun q =>
                Ascii.eqb c Tnine.NUL
                || Bool.eqb (Tnine.key_test c q)
                     (match Tnine.keypad c with
                      | Some k => Ascii.eqb k q
                      | None => false
                      end)) Tnine.all_ascii) Tnine.all_ascii = true)
    by (vm_compute; reflexivity).
  rewrite forallb_forall in H.
  specialize (H c (proj1 (list_elem_of_In _ _) (tnine_all_ascii c))).
  rewrite forallb_forall in H.
  specialize (H q (proj1 (list_elem_of_In _ _) (tnine_all_ascii q))).
  apply orb_true_iff in H as [H|H];
    [apply Ascii.eqb_eq in H; contradiction|].
  apply Bool.eqb_prop in H. rewrite H.
  destruct (Tnine.keypad c) as [k|]; [|easy].
  rewrite Ascii.eqb_eq. split; [now intros ->|now intros [= ->]].
Qed.

Lemma tnine_key_test_digit (c q : ascii) :
  Tnine.key_test c q = true -> isdigit q = true.
Proof.
  assert (H : forallb (fun c => forallb (fun q =>
                implb (Tnine.key_test c q) (isdigit q)) Tnine.all_ascii)
                Tnine.all_ascii = true)
    by (vm_compute; reflexivity).
  rewrite forallb_forall in H.
  specialize (H c (proj1 (list_elem_of_In _ _) (tnine_all_ascii c))).
  rewrite forallb_forall in H.
  specialize (H q (proj1 (list_elem_of_In _ _) (tnine_all_ascii q))).
  intros K. now rewrite K in H.
Qed.

(** The step that the two matchers share. *)
Lemma tnine_complex_cons (c : ascii) (str : list ascii) (q : ascii) (query : list ascii) :
  Tnine.is_match_complex (c :: str) (q :: query)
  = if Tnine.key_test c q then Tnine.is_match_complex str query
    else Tnine.is_match_complex str (q :: query).
Proof.
  unfold Tnine.key_test. cbn [Tnine.is_match_complex].
  destruct (isdigit c); [reflexivity|]. cbv zeta.
  now destruct ((0 <=? _) && (_ <=? 9) && Tnine.strchr _ c).
Qed.

Lemma tnine_scan_cons (c : ascii) (s : list ascii) (q : ascii) (query : list ascii) :
  Tnine.unbroken_scan (c :: s) (q :: query)
  = if Tnine.key_test c q then Tnine.unbroken_scan s query else q :: query.
Proof.
  unfold Tnine.key_test. cbn [Tnine.unbroken_scan].
  destruct (isdigit c); [reflexivity|]. cbv zeta.
  now destruct ((0 <=? _) && (_ <=? 9) && Tnine.strchr _ c).
Qed.

Lemma tnine_scan_nil_r (s : list ascii) : Tnine.unbroken_scan s [] = [].
Proof. now destruct s. Qed.

(** The inner loop uses up the query exactly when the query matches the
    beginning of the text, character by character. *)
Lemma tnine_scan_prefix (s query : list ascii) :
  Tnine.unbroken_scan s query = [] <->
  exists mid post, s = mid ++ post /\
    Forall2 (fun c q => Tnine.key_test c q = true) mid query.
Proof.
  revert query. induction s as [|c s IH]; intros [|q query].
  - split; [intros _|reflexivity]. exists [], []. split; [reflexivity|constructor].
  - split; [discriminate|].
    intros (mid & post & Hs & HF). symmetry in Hs.
    apply app_eq_nil in Hs as [-> _]. inversion HF.
  - split; [intros _|reflexivity]. exists [], (c :: s). split; [reflexivity|constructor].
  - rewrite tnine_scan_cons. destruct (Tnine.key_test c q) eqn:K.
    + rewrite IH. split.
      * intros (mid & post & -> & HF). exists (c :: mid), post.
        split; [reflexivity|now constructor].
      * intros (mid & post & Hs & HF).
        inversion HF as [|c' q' mid' query' Hk HF' E1 E2]; subst.
        simpl in Hs. injection Hs as -> ->. now exists mid', post.
    + split; [discriminate|].
      intros (mid & post & Hs & HF).
      inversion HF as [|c' q' mid' query' Hk HF' E1 E2]; subst.
      simpl in Hs. injection Hs as -> ->. congruence.
Qed.

Lemma tnine_unbroken_infix (str query : list ascii) :
  Tnine.is_match_unbroken str query = true <->
  exists pre mid post, str = pre ++ mid ++ post /\
    Forall2 (fun c q => Tnine.key_test c q = true) mid query.
Proof.
  induction str as [|c str IH].
  - simpl. destruct query as [|q query].
    + split; [intros _|reflexivity]. exists [], [], []. split; [reflexivity|constructor].
    + split; [discriminate|].
      intros (pre & mid & post & Hs & HF). symmetry in Hs.
      apply app_eq_nil in Hs as [_ Hs]. apply app_eq_nil in Hs as [-> _].
      inversion HF.
  - cbn [Tnine.is_match_unbroken].
    destruct (Tnine.unbroken_scan (c :: str) query) as [|r rs] eqn:Sc.
    + split; [intros _|reflexivity].
      apply tnine_scan_prefix in Sc as (mid & post & Hs & HF).
      now exists [], mid, post.
    + rewrite IH. split.
      * intros (pre & mid & post & -> & HF). exists (c :: pre), mid, post.
        split; [reflexivity|exact HF].
      * intros (pre & mid & post & Hs & HF). destruct pre as [|p pre].
        -- exfalso. assert (Tnine.unbroken_scan (c :: str) query = []) as E.
           { apply tnine_scan_prefix. now exists mid, post. }
           congruence.
        -- simpl in Hs. injection Hs as -> ->. exists pre, mid, post.
           split; [reflexivity|exact HF].
Qed.

Lemma tnine_complex_sublist (str query : list ascii) :
  Tnine.is_match_complex str query = true <->
  exists sub, sub `sublist_of` str /\
    Forall2 (fun c q => Tnine.key_test c q = true) sub query.
Proof.
  revert query. induction str as [|c str IH]; intros [|q query].
  - split; [intros _|reflexivity]. exists []. split; constructor.
  - split; [discriminate|].
    intros (sub & Hs & HF). apply sublist_nil_r in Hs as ->. inversion HF.
  - split; [intros _|reflexivity]. exists []. split; [apply sublist_nil_l|constructor].
  - rewrite tnine_complex_cons. destruct (Tnine.key_test c q) eqn:K; rewrite IH.
    + split.
      * intros (sub & Hs & HF). exists (c :: sub).
        split; [now apply sublist_skip|now constructor].
      * intros (sub & Hs & HF).
        inversion HF as [|c' q' sub' query' Hk HF' E1 E2]; subst.
        exists sub'. split; [|exact HF'].
        apply sublist_cons_r in Hs as [Hs|(l' & [= -> ->] & Hs)]; [|exact Hs].
        transitivity (c' :: sub'); [now apply sublist_cons|exact Hs].
    + split.
      * intros (sub & Hs & HF). exists sub. split; [now apply sublist_cons|exact HF].
      * intros (sub & Hs & HF). exists sub. split; [|exact HF].
        apply sublist_cons_r in Hs as [Hs|(l' & -> & Hs)]; [exact Hs|].
        inversion HF; subst. congruence.
Qed.

Lemma tnine_keys_keypad (mid query : list ascii) :
  Forall (fun c => c <> Tnine.NUL) mid ->
  Forall2 (fun c q => Tnine.key_test c q = true) mid query <->
  Tnine.keypad <$> mid = Some <$> query.
Proof.
  intros Hn. revert query. induction Hn as [|c mid Hc _ IH]; intros [|q query].
  - split; [reflexivity|constructor].
  - split; [inversion 1|discriminate].
  - split; [inversion 1|discriminate].
  - cbn [fmap list_fmap]. split.
    + intros H. inversion H as [|? ? ? ? Hk HF]; subst.
      apply (tnine_key_test_keypad c q Hc) in Hk. apply IH in HF.
      now rewrite Hk, HF.
    + intros [= Hk HF]. constructor.
      * now apply (tnine_key_test_keypad c q Hc).
      * now apply IH.
Qed.

Lemma tnine_valid_query (query : list ascii) :
  Tnine.isValidQuery query = true <-> Forall (fun q => isdigit q = true) query.
Proof.
  induction query as [|q query IH]; simpl; [easy|].
  destruct (isdigit q) eqn:D; simpl.
  - rewrite IH. split; [now constructor|now inversion 1].
  - split; [discriminate|]. inversion 1; congruence.
Qed.

Lemma tnine_keys_digits (mid query : list ascii) :
  Forall2 (fun c q => Tnine.key_test c q = true) mid query ->
  Tnine.isValidQuery query = true.
Proof.
  intros HF. apply tnine_valid_query.
  induction HF as [|c q mid query Hk _ IH]; constructor; [|exact IH].
  exact (tnine_key_test_digit c q Hk).
Qed.

(** X8. On a text without [NUL], [is_match_unbroken] answers true exactly
    when the query occurs in the text as an unbroken run of keys: some
    consecutive characters of the text sit, one by one, on the keys that
    the query names (a digit on its own key, [+] on 0, letters on 2 to 9). *)
Theorem tnine_unbroken_keypad (str query : list ascii) :
  Forall (fun c => c <> Tnine.NUL) str ->
  Tnine.is_match_unbroken str query = true <->
  exists pre mid post, str = pre ++ mid ++ post /\
    Tnine.keypad <$> mid = Some <$> query.
Proof.
  intros Hn. rewrite tnine_unbroken_infix. split.
  - intros (pre & mid & post & -> & HF). exists pre, mid, post.
    split; [reflexivity|]. apply tnine_keys_keypad; [|exact HF].
    apply Forall_app in Hn as [_ Hn]. now apply Forall_app in Hn as [Hn _].
  - intros (pre & mid & post & -> & HK). exists pre, mid, post.
    split; [reflexivity|]. apply tnine_keys_keypad; [|exact HK].
    apply Forall_app in Hn as [_ Hn]. now apply Forall_app in Hn as [Hn _].
Qed.

Lemma tnine_unbroken_keypad_witness :
  Tnine.is_match_unbroken (list_ascii_of_string "petr novak")
                          (list_ascii_of_string "3870") = false /\
  Tnine.is_match_unbroken (list_ascii_of_string "petr novak")
                          (list_ascii_of_string "387") = true.
Proof.
  split; [reflexivity|].
  apply (proj2 (tnine_unbroken_keypad (list_ascii_of_string "petr novak")
                  (list_ascii_of_string "387")
                  ltac:(repeat constructor; discriminate))).
  exists (list_ascii_of_string "p"), (list_ascii_of_string "etr"),
         (list_ascii_of_string " novak").
  split; reflexivity.
Defined.

Lemma tnine_sublist_Forall (P : ascii -> Prop) (sub str : list ascii) :
  sub `sublist_of` str -> Forall P str -> Forall P sub.
Proof.
  intros Hs. induction Hs as [|x l1 l2 _ IH|x l1 l2 _ IH]; intros HF.
  - constructor.
  - inversion HF; subst. constructor; [assumption|now apply IH].
  - inversion HF; subst. now apply IH.
Qed.

(** X9. On a text without [NUL], [is_match_complex] answers true exactly
    when the query occurs in the text as a subsequence of keys: some
    characters of the text, in their order but not necessarily next to each
    other, sit one by one on the keys that the query names. *)
Theorem tnine_complex_keypad (str query : list ascii) :
  Forall (fun c => c <> Tnine.NUL) str ->
  Tnine.is_match_complex str query = true <->
  exists sub, sub `sublist_of` str /\ Tnine.keypad <$> sub = Some <$> query.
Proof.
  intros Hn. rewrite tnine_complex_sublist. split.
  - intros (sub & Hs & HF). exists sub. split; [exact Hs|].
    apply tnine_keys_keypad; [|exact HF]. exact (tnine_sublist_Forall _ _ _ Hs Hn).
  - intros (sub & Hs & HK). exists sub. split; [exact Hs|].
    apply tnine_keys_keypad; [|exact HK]. exact (tnine_sublist_Forall _ _ _ Hs Hn).
Qed.

Lemma tnine_complex_keypad_witness :
  Tnine.is_match_complex (list_ascii_of_string "petr novak")
                         (list_ascii_of_string "7825") = true.
Proof.
  apply (proj2 (tnine_complex_keypad (list_ascii_of_string "petr novak")
                  (list_ascii_of_string "7825")
                  ltac:(repeat constructor; discriminate))).
  exists (list_ascii_of_string "pvak"). split; [|reflexivity].
  simpl. repeat (apply sublist_skip || apply sublist_cons || apply sublist_nil).
Defined.

(** X10. Whatever [is_match_unbroken] matches, [is_match_complex] matches
    too. *)
Theorem tnine_unbroken_complex (str query : list ascii) :
  Tnine.is_match_unbroken str query = true ->
  Tnine.is_match_complex str query = true.
Proof.
  rewrite tnine_unbroken_infix, tnine_complex_sublist.
  intros (pre & mid & post & -> & HF). exists mid. split; [|exact HF].
  apply sublist_inserts_l, sublist_inserts_r. reflexivity.
Qed.

Lemma tnine_unbroken_complex_witness :
  Tnine.is_match_complex (list_ascii_of_string "+420 777") (list_ascii_of_string "0420")
  = true.
Proof. apply tnine_unbroken_complex. reflexivity. Defined.

(** X11. Neither matcher matches a query that holds anything but digits:
    a match implies that [isValidQuery] accepts the query. *)
Theorem tnine_match_valid_query (str query : list ascii) :
  Tnine.is_match_unbroken str query = true \/
  Tnine.is_match_complex str query = true ->
  Tnine.isValidQuery query = true.
Proof.
  intros [H|H].
  - apply tnine_unbroken_infix in H as (pre & mid & post & _ & HF).
    exact (tnine_keys_digits mid query HF).
  - apply tnine_complex_sublist in H as (sub & _ & HF).
    exact (tnine_keys_digits sub query HF).
Qed.

Lemma tnine_match_valid_query_witness :
  Tnine.isValidQuery (list_ascii_of_string "26") = true.
Proof.
  apply (tnine_match_valid_query (list_ascii_of_string "bob")).
  left. reflexivity.
Defined.

(** * tnine: the ends of lines and the case of letters *)

Lemma tnine_trim_loop (len : nat) (str : list ascii) :
  length str = len ->
  exists tail, str = Tnine.trim_loop len str ++ tail /\
    Forall (fun c => c = Tnine.LF \/ c = Tnine.CR) tail /\
    forall c, list.last (Tnine.trim_loop len str) = Some c ->
              c <> Tnine.LF /\ c <> Tnine.CR.
Proof.
  revert str. induction len as [|len IH]; intros str Hlen.
  - apply length_zero_iff_nil in Hlen as ->. exists []. simpl.
    split; [reflexivity|]. split; [constructor|discriminate].
  - cbn [Tnine.trim_loop].
    destruct (lookup_lt_is_Some_2 str len ltac:(lia)) as [c Hc]. rewrite Hc.
    assert (Hsplit : str = take len str ++ [c]).
    { rewrite <- (take_drop len str) at 1. f_equal.
      apply list_eq. intros [|i].
      - rewrite lookup_drop, Nat.add_0_r. exact Hc.
      - rewrite lookup_drop. simpl. apply lookup_ge_None_2. lia. }
    destruct (Ascii.eqb c Tnine.LF || Ascii.eqb c Tnine.CR) eqn:E.
    + destruct (IH (take len str)) as (tail & Ht & Hall & Hlast).
      { rewrite length_take. lia. }
      exists (tail ++ [c]). split; [|split; [|exact Hlast]].
      * rewrite app_assoc, <- Ht. exact Hsplit.
      * apply Forall_app. split; [exact Hall|]. constructor; [|constructor].
        apply orb_true_iff in E as [E|E]; apply Ascii.eqb_eq in E; auto.
    + exists []. rewrite app_nil_r. split; [reflexivity|]. split; [constructor|].
      intros c'. rewrite Hsplit, last_snoc. intros [= <-].
      apply orb_false_iff in E as [E1 E2].
      apply Ascii.eqb_neq in E1, E2. easy.
Qed.

Lemma tnine_trim_fixed (str : list ascii) :
  (forall c, list.last str = Some c -> c <> Tnine.LF /\ c <> Tnine.CR) ->
  Tnine.trim str = str.
Proof.
  intros Hlast. unfold Tnine.trim.
  destruct (length str) as [|len] eqn:Hlen; [reflexivity|].
  cbn [Tnine.trim_loop].
  destruct (lookup_lt_is_Some_2 str len ltac:(lia)) as [c Hc]. rewrite Hc.
  assert (Hl : list.last str = Some c).
  { rewrite last_lookup, Hlen. exact Hc. }
  destruct (Hlast c Hl) as [H1 H2].
  apply Ascii.eqb_neq in H1, H2. now rewrite H1, H2.
Qed.

(** X12. [trim] removes from the end of a string the newlines and carriage
    returns, all of them and nothing else: the string is the result
    followed by characters that are all newlines or carriage returns, the
    result does not end in one, and trimming it again changes nothing. *)
Theorem tnine_trim_spec (str : list ascii) :
  (exists tail, str = Tnine.trim str ++ tail /\
     Forall (fun c => c = Tnine.LF \/ c = Tnine.CR) tail) /\
  (forall c, list.last (Tnine.trim str) = Some c -> c <> Tnine.LF /\ c <> Tnine.CR) /\
  Tnine.trim (Tnine.trim str) = Tnine.trim str.
Proof.
  destruct (tnine_trim_loop (length str) str eq_refl) as (tail & Ht & Hall & Hlast).
  fold (Tnine.trim str) in *.
  split; [now exists tail|]. split; [exact Hlast|].
  now apply tnine_trim_fixed.
Qed.

(** Characters that [tolower] neither changes nor produces. *)
Lemma tnine_tolower_spec (c : ascii) :
  Tnine.tolower (Tnine.tolower c) = Tnine.tolower c /\
  (Tnine.tolower c = Tnine.NUL <-> c = Tnine.NUL) /\
  (Tnine.tolower c = Tnine.LF <-> c = Tnine.LF) /\
  (Tnine.tolower c = Tnine.CR <-> c = Tnine.CR).
Proof.
  assert (H : forallb (fun c =>
                Ascii.eqb (Tnine.tolower (Tnine.tolower c)) (Tnine.tolower c)
                && Bool.eqb (Ascii.eqb (Tnine.tolower c) Tnine.NUL) (Ascii.eqb c Tnine.NUL)
                && Bool.eqb (Ascii.eqb (Tnine.tolower c) Tnine.LF) (Ascii.eqb c Tnine.LF)
                && Bool.eqb (Ascii.eqb (Tnine.tolower c) Tnine.CR) (Ascii.eqb c Tnine.CR))
                Tnine.all_ascii = true) by (vm_compute; reflexivity).
  rewrite forallb_forall in H.
  specialize (H c (proj1 (list_elem_of_In _ _) (tnine_all_ascii c))).
  apply andb_true_iff in H as [H H4]. apply andb_true_iff in H as [H H3].
  apply andb_true_iff in H as [H1 H2].
  apply Ascii.eqb_eq in H1. apply Bool.eqb_prop in H2, H3, H4.
  split; [exact H1|]. rewrite <- !Ascii.eqb_eq. rewrite H2, H3, H4. easy.
Qed.


(** * tnine: reading the contacts *)

Lemma tnine_read_line (k : nat) (stream : list ascii) :
  stream = (Tnine.read_line k stream).1 ++ (Tnine.read_line k stream).2 /\
  (length (Tnine.read_line k stream).1 <= k)%nat /\
  ((0 < k)%nat -> stream <> [] -> (Tnine.read_line k stream).1 <> []) /\
  exists body, Forall (fun c => c <> Tnine.LF) body /\
    ((Tnine.read_line k stream).1 = body \/
     (Tnine.read_line k stream).1 = body ++ [Tnine.LF]).
Proof.
  revert stream. induction k as [|k IH]; intros stream.
  - simpl. repeat split; try lia. exists []. split; [constructor|now left].
  - destruct stream as [|c stream]; simpl.
    + repeat split; try lia; try easy. exists []. split; [constructor|now left].
    + destruct (Ascii.eqb c Tnine.LF) eqn:E; simpl.
      * apply Ascii.eqb_eq in E as ->. repeat split; try lia; try easy.
        exists []. split; [constructor|now right].
      * apply Ascii.eqb_neq in E.
        destruct (IH stream) as (Hs & Hl & _ & body & Hb & Hline).
        destruct (Tnine.read_line k stream) as [line rest]. simpl in *.
        repeat split; try lia; try easy; [now f_equal|].
        exists (c :: body). split; [now constructor|].
        destruct Hline as [-> | ->]; [now left|now right].
Qed.

Lemma tnine_fgets (stream line rest : list ascii) :
  Tnine.fgets Tnine.MAX_LENGTH stream = Some (line, rest) ->
  stream = line ++ rest /\ line <> [] /\ (length line <= 101)%nat /\
  exists body, Forall (fun c => c <> Tnine.LF) body /\
    (line = body \/ line = body ++ [Tnine.LF]).
Proof.
  unfold Tnine.fgets. destruct stream as [|c stream]; [discriminate|].
  destruct (tnine_read_line (Tnine.MAX_LENGTH - 1) (c :: stream))
    as (Hs & Hl & Hne & Hb).
  remember (Tnine.read_line (Tnine.MAX_LENGTH - 1) (c :: stream)) as r eqn:Hr.
  clear Hr. intros H. apply (inj Some) in H. subst r. cbn [fst snd] in *.
  split; [exact Hs|]. split; [|split; [exact Hl|exact Hb]].
  apply Hne; [unfold Tnine.MAX_LENGTH; lia|discriminate].
Qed.

Lemma tnine_c_str (buffer : list ascii) :
  Tnine.c_str buffer `prefix_of` buffer /\
  Forall (fun c => c <> Tnine.NUL) (Tnine.c_str buffer).
Proof.
  induction buffer as [|c buffer [IH1 IH2]]; simpl.
  - split; [reflexivity|constructor].
  - destruct (Ascii.eqb c Tnine.NUL) eqn:E.
    + split; [apply prefix_nil|constructor].
    + apply Ascii.eqb_neq in E. split; [now apply prefix_cons|now constructor].
Qed.

Lemma tnine_trim_prefix (str : list ascii) : Tnine.trim str `prefix_of` str.
Proof.
  destruct (tnine_trim_loop (length str) str eq_refl) as (tail & Ht & _).
  now exists tail.
Qed.

(** A newline in a text that holds one only at its very end. *)
Lemma tnine_only_newline (l1 l2 body : list ascii) :
  Forall (fun c => c <> Tnine.LF) body ->
  l1 ++ Tnine.LF :: l2 = body ++ [Tnine.LF] -> l2 = [].
Proof.
  intros Hb. revert l1. induction Hb as [|b body Hb _ IH]; intros [|x l1] E;
    simpl in E.
  - now injection E.
  - injection E as _ E. now destruct l1.
  - injection E as E1 _. congruence.
  - injection E as _ E. now apply (IH l1).
Qed.

(** What the loop stores of a line that is not blank. *)
Lemma tnine_line_field (stream line rest : list ascii) :
  Tnine.fgets Tnine.MAX_LENGTH stream = Some (line, rest) ->
  (length (Tnine.trim (Tnine.c_str line)) =? 0)%nat = false ->
  Tnine.stored_field (take (Tnine.MAX_LENGTH - 1) (Tnine.trim (Tnine.c_str line))).
Proof.
  intros Hf Hlen. apply Nat.eqb_neq in Hlen.
  destruct (tnine_fgets _ _ _ Hf) as (_ & _ & Hl & body & Hb & Hline).
  destruct (tnine_c_str line) as [Hp Hn].
  pose proof (tnine_trim_prefix (Tnine.c_str line)) as Hp2.
  destruct (tnine_trim_loop (length (Tnine.c_str line)) (Tnine.c_str line) eq_refl)
    as (_ & _ & _ & Hlast).
  fold (Tnine.trim (Tnine.c_str line)) in Hlast.
  set (f := Tnine.trim (Tnine.c_str line)) in *.
  assert (Hpl : f `prefix_of` line) by (etransitivity; eassumption).
  pose proof (prefix_length _ _ Hpl) as Hfl.
  rewrite take_ge by (unfold Tnine.MAX_LENGTH; lia).
  assert (HnoLF : Forall (fun c => c <> Tnine.LF) f).
  { destruct Hline as [-> | ->].
    - destruct Hpl as [t Ht]. rewrite Ht in Hb. now apply Forall_app in Hb as [Hb _].
    - apply List.Forall_forall. intros x Hx Ex.
      apply in_split in Hx as (f1 & f2 & Hf12).
      destruct Hpl as [t Ht]. rewrite Hf12, Ex in Ht.
      rewrite <- app_assoc in Ht. simpl in Ht. symmetry in Ht.
      apply tnine_only_newline in Ht; [|exact Hb].
      apply app_eq_nil in Ht as [Hf2 _].
      destruct (Hlast Tnine.LF) as [H _]; [|contradiction].
      rewrite Hf12, Hf2, Ex. apply last_snoc. }
  repeat split.
  - intros E. now rewrite E in Hlen.
  - unfold Tnine.MAX_LENGTH in *. lia.
  - apply List.Forall_and; [|exact HnoLF].
    destruct Hp2 as [t Ht]. rewrite Ht in Hn. now apply Forall_app in Hn as [Hn _].
  - intros c Hc. now destruct (Hlast c Hc).
Qed.

Lemma tnine_fgets_shorter (stream line rest : list ascii) :
  Tnine.fgets Tnine.MAX_LENGTH stream = Some (line, rest) ->
  (length rest < length stream)%nat /\ rest `suffix_of` stream.
Proof.
  intros Hf. destruct (tnine_fgets _ _ _ Hf) as (-> & Hne & _).
  split; [|now exists line]. rewrite length_app.
  destruct line; [contradiction|simpl; lia].
Qed.

Lemma tnine_read_loop (fuel : nat) (stdin : list ascii) (acc : list Tnine.Contact) :
  (length stdin < fuel)%nat -> (length acc <= Tnine.MAX_CONTACTS)%nat ->
  Forall (fun c => Tnine.stored_field (Tnine.name c) /\
                   Tnine.stored_field (Tnine.number c)) acc ->
  exists contacts rest,
    Tnine.read_loop fuel stdin acc = Done (contacts, rest) /\
    (length contacts <= Tnine.MAX_CONTACTS)%nat /\
    Forall (fun c => Tnine.stored_field (Tnine.name c) /\
                     Tnine.stored_field (Tnine.number c)) contacts /\
    rest `suffix_of` stdin.
Proof.
  revert stdin acc. induction fuel as [|fuel IH]; intros stdin acc Hf Hacc Hok;
    [lia|].
  cbn [Tnine.read_loop].
  destruct (length acc <? Tnine.MAX_CONTACTS)%nat eqn:E;
    [|now exists acc, stdin].
  apply Nat.ltb_lt in E.
  destruct (Tnine.fgets Tnine.MAX_LENGTH stdin) as [[line stdin1]|] eqn:F1;
    [|now exists acc, stdin].
  destruct (tnine_fgets_shorter _ _ _ F1) as [Hl1 Hs1].
  destruct (length (Tnine.trim (Tnine.c_str line)) =? 0)%nat eqn:N1.
  { destruct (IH stdin1 acc ltac:(lia) Hacc Hok) as (cs & rest & H & Hc & Hall & Hsuf).
    exists cs, rest. repeat split; try easy. now transitivity stdin1. }
  destruct (Tnine.fgets Tnine.MAX_LENGTH stdin1) as [[line2 stdin2]|] eqn:F2.
  2:{ exists acc, stdin1. easy. }
  destruct (tnine_fgets_shorter _ _ _ F2) as [Hl2 Hs2].
  destruct (length (Tnine.trim (Tnine.c_str line2)) =? 0)%nat eqn:N2.
  { destruct (IH stdin2 acc ltac:(lia) Hacc Hok) as (cs & rest & H & Hc & Hall & Hsuf).
    exists cs, rest. repeat split; try easy.
    transitivity stdin2; [easy|]. now transitivity stdin1. }
  destruct (IH stdin2
              (acc ++ [Tnine.mkContact
                         (take (Tnine.MAX_LENGTH - 1) (Tnine.trim (Tnine.c_str line)))
                         (take (Tnine.MAX_LENGTH - 1) (Tnine.trim (Tnine.c_str line2)))]))
    as (cs & rest & H & Hc & Hall & Hsuf).
  - lia.
  - rewrite length_app. simpl. lia.
  - apply Forall_app. split; [exact Hok|]. constructor; [|constructor].
    split; [exact (tnine_line_field _ _ _ F1 N1)|exact (tnine_line_field _ _ _ F2 N2)].
  - exists cs, rest. repeat split; try easy.
    transitivity stdin2; [easy|]. now transitivity stdin1.
Qed.

(** X13. Whatever standard input holds, [read_contacts] returns: with at
    most 42 contacts, each with a name and a number that are not empty, hold
    at most 101 bytes, no [NUL] and no newline, and do not end in a carriage
    return; what it leaves unread is an end of the input. *)
Theorem tnine_read_contacts_fields (stdin : list ascii) :
  exists contacts rest,
    Tnine.read_contacts stdin = Done (contacts, rest) /\
    (length contacts <= 42)%nat /\
    Forall (fun c => Tnine.stored_field (Tnine.name c) /\
                     Tnine.stored_field (Tnine.number c)) contacts /\
    rest `suffix_of` stdin.
Proof.
  unfold Tnine.read_contacts.
  apply tnine_read_loop; [lia|unfold Tnine.MAX_CONTACTS; simpl; lia|constructor].
Qed.

(** With enough fuel the loop does not depend on it. *)
Lemma tnine_read_loop_fuel (fuel fuel' : nat) (stdin : list ascii)
      (acc : list Tnine.Contact) :
  (length stdin < fuel)%nat -> (length stdin < fuel')%nat ->
  Tnine.read_loop fuel stdin acc = Tnine.read_loop fuel' stdin acc.
Proof.
  revert fuel' stdin acc. induction fuel as [|fuel IH]; intros [|fuel'] stdin acc H1 H2;
    try lia.
  cbn [Tnine.read_loop].
  destruct (length acc <? Tnine.MAX_CONTACTS)%nat; [|reflexivity].
  destruct (Tnine.fgets Tnine.MAX_LENGTH stdin) as [[line stdin1]|] eqn:F1;
    [|reflexivity].
  destruct (tnine_fgets_shorter _ _ _ F1) as [Hl1 _].
  destruct (length (Tnine.trim (Tnine.c_str line)) =? 0)%nat; [apply IH; lia|].
  destruct (Tnine.fgets Tnine.MAX_LENGTH stdin1) as [[line2 stdin2]|] eqn:F2;
    [|reflexivity].
  destruct (tnine_fgets_shorter _ _ _ F2) as [Hl2 _].
  destruct (length (Tnine.trim (Tnine.c_str line2)) =? 0)%nat; apply IH; lia.
Qed.


(** ** Lines that hold one field *)

Lemma tnine_read_line_body (k : nat) (body rest : list ascii) :
  Forall (fun c => c <> Tnine.LF) body -> (length body < k)%nat ->
  Tnine.read_line k (body ++ Tnine.LF :: rest) = (body ++ [Tnine.LF], rest).
Proof.
  intros Hb. revert k. induction Hb as [|c body Hc _ IH]; intros [|k] Hk;
    try (simpl in Hk; lia).
  - reflexivity.
  - simpl. apply Ascii.eqb_neq in Hc. rewrite Hc.
    rewrite IH by (simpl in Hk; lia). reflexivity.
Qed.

Lemma tnine_c_str_plain (l : list ascii) :
  Forall (fun c => c <> Tnine.NUL) l -> Tnine.c_str l = l.
Proof.
  induction 1 as [|c l Hc _ IH]; simpl; [reflexivity|].
  apply Ascii.eqb_neq in Hc. now rewrite Hc, IH.
Qed.

Lemma tnine_trim_snoc (str : list ascii) (c : ascii) :
  c = Tnine.LF \/ c = Tnine.CR -> Tnine.trim (str ++ [c]) = Tnine.trim str.
Proof.
  intros Hc. unfold Tnine.trim. rewrite length_app. simpl.
  rewrite Nat.add_1_r. cbn [Tnine.trim_loop].
  rewrite lookup_app_r, Nat.sub_diag by lia. simpl.
  assert ((Ascii.eqb c Tnine.LF || Ascii.eqb c Tnine.CR) = true) as ->.
  { destruct Hc as [-> | ->]; reflexivity. }
  now rewrite take_app_length.
Qed.

(** A line with a plain field and its end of line is read whole and stored
    as the field. *)
Lemma tnine_plain_line (eol f rest : list ascii) :
  eol = [Tnine.LF] \/ eol = [Tnine.CR; Tnine.LF] ->
  Tnine.plain_field eol f ->
  Tnine.fgets Tnine.MAX_LENGTH (f ++ eol ++ rest) = Some (f ++ eol, rest) /\
  Tnine.trim (Tnine.c_str (f ++ eol)) = f /\
  take (Tnine.MAX_LENGTH - 1) f = f /\
  (length f =? 0)%nat = false.
Proof.
  intros Heol (Hne & Hlen & Hall).
  assert (Hnul : Forall (fun c => c <> Tnine.NUL) f)
    by (eapply List.Forall_impl; [|exact Hall]; now intros c (H & _)).
  assert (Hlf : Forall (fun c => c <> Tnine.LF) f)
    by (eapply List.Forall_impl; [|exact Hall]; now intros c (_ & H & _)).
  assert (Htrim : Tnine.trim f = f).
  { apply tnine_trim_fixed. intros c Hc.
    apply last_Some in Hc as [l' ->].
    apply Forall_app in Hall as [_ Hall]. inversion Hall as [|? ? (_ & H1 & H2)].
    easy. }
  assert (Hfg : forall s, Tnine.fgets Tnine.MAX_LENGTH (f ++ s)
                          = Some (Tnine.read_line (Tnine.MAX_LENGTH - 1) (f ++ s))).
  { intros s. destruct f; [contradiction|reflexivity]. }
  rewrite Hfg. clear Hfg.
  split; [|split; [|split]].
  - f_equal. destruct Heol as [-> | ->]; simpl in Hlen.
    + change ([Tnine.LF] ++ rest) with (Tnine.LF :: rest).
      apply tnine_read_line_body; [exact Hlf|unfold Tnine.MAX_LENGTH; lia].
    + change (f ++ [Tnine.CR; Tnine.LF] ++ rest)
        with (f ++ [Tnine.CR] ++ Tnine.LF :: rest).
      rewrite app_assoc, tnine_read_line_body.
      * now rewrite <- app_assoc.
      * apply Forall_app. split; [exact Hlf|]. constructor; [discriminate|constructor].
      * rewrite length_app. simpl. unfold Tnine.MAX_LENGTH. lia.
  - rewrite tnine_c_str_plain.
    + destruct Heol as [-> | ->].
      * rewrite tnine_trim_snoc by now left. exact Htrim.
      * change [Tnine.CR; Tnine.LF] with ([Tnine.CR] ++ [Tnine.LF]).
        rewrite app_assoc, tnine_trim_snoc by now left.
        rewrite tnine_trim_snoc by now right. exact Htrim.
    + apply Forall_app. split; [exact Hnul|].
      destruct Heol as [-> | ->]; repeat constructor; discriminate.
  - apply take_ge. unfold Tnine.MAX_LENGTH. lia.
  - apply Nat.eqb_neq. destruct f; [contradiction|discriminate].
Qed.

Lemma tnine_read_loop_lines (eol : list ascii) (cs acc : list Tnine.Contact) (fuel : nat) :
  eol = [Tnine.LF] \/ eol = [Tnine.CR; Tnine.LF] ->
  Forall (fun c => Tnine.plain_field eol (Tnine.name c) /\
                   Tnine.plain_field eol (Tnine.number c)) cs ->
  (length acc <= Tnine.MAX_CONTACTS)%nat -> (length cs < fuel)%nat ->
  Tnine.read_loop fuel (Tnine.contacts_lines eol cs) acc
  = Done (acc ++ take (Tnine.MAX_CONTACTS - length acc) cs,
          Tnine.contacts_lines eol (drop (Tnine.MAX_CONTACTS - length acc) cs)).
Proof.
  intros Heol Hcs. revert acc fuel.
  induction Hcs as [|c cs [Hn Hm] _ IH]; intros acc [|fuel] Hacc Hf;
    try (simpl in Hf; lia).
  - cbn [Tnine.read_loop Tnine.contacts_lines].
    rewrite take_nil, drop_nil, app_nil_r.
    now destruct (length acc <? Tnine.MAX_CONTACTS)%nat.
  - cbn [Tnine.read_loop].
    destruct (length acc <? Tnine.MAX_CONTACTS)%nat eqn:E.
    + apply Nat.ltb_lt in E. cbn [Tnine.contacts_lines].
      destruct (tnine_plain_line eol (Tnine.name c)
                  (Tnine.number c ++ eol ++ Tnine.contacts_lines eol cs) Heol Hn)
        as (F1 & T1 & K1 & N1).
      destruct (tnine_plain_line eol (Tnine.number c)
                  (Tnine.contacts_lines eol cs) Heol Hm) as (F2 & T2 & K2 & N2).
      rewrite F1, T1, N1, K1, F2, T2, N2, K2.
      rewrite IH by (rewrite ?length_app; simpl in *; lia).
      rewrite length_app. simpl.
      replace (Tnine.MAX_CONTACTS - length acc)%nat
        with (S (Tnine.MAX_CONTACTS - (length acc + 1)))%nat by lia.
      simpl. rewrite <- app_assoc. simpl. now destruct c.
    + apply Nat.ltb_ge in E.
      replace (Tnine.MAX_CONTACTS - length acc)%nat with 0%nat by lia.
      simpl. now rewrite app_nil_r.
Qed.

(** X14. Contacts written one field per line are read back as they are:
    when every name and number is plain (not empty, without [NUL], newline
    or carriage return, and with its end of line at most 101 bytes long),
    [read_contacts] returns the first 42 contacts of the text and leaves the
    lines of the others unread. The end of line may be a newline or a
    carriage return and a newline. *)
Theorem tnine_read_contacts_lines (eol : list ascii) (cs : list Tnine.Contact) :
  eol = [Tnine.LF] \/ eol = [Tnine.CR; Tnine.LF] ->
  Forall (fun c => Tnine.plain_field eol (Tnine.name c) /\
                   Tnine.plain_field eol (Tnine.number c)) cs ->
  Tnine.read_contacts (Tnine.contacts_lines eol cs)
  = Done (take 42 cs, Tnine.contacts_lines eol (drop 42 cs)).
Proof.
  intros Heol Hcs. unfold Tnine.read_contacts.
  rewrite (tnine_read_loop_lines eol cs [] _ Heol Hcs);
    [reflexivity|unfold Tnine.MAX_CONTACTS; simpl; lia|].
  assert (H : (length cs <= length (Tnine.contacts_lines eol cs))%nat).
  { clear Hcs. induction cs as [|c cs IH]; simpl; [lia|].
    rewrite !length_app. destruct Heol as [-> | ->]; simpl; lia. }
  lia.
Qed.

Lemma tnine_read_contacts_lines_witness :
  let cs := [Tnine.mkContact (list_ascii_of_string "Petr Novak")
                             (list_ascii_of_string "+420 777 123")] in
  Tnine.read_contacts (Tnine.contacts_lines [Tnine.CR; Tnine.LF] cs)
  = Done (take 42 cs, Tnine.contacts_lines [Tnine.CR; Tnine.LF] (drop 42 cs)).
Proof.
  intros cs. apply tnine_read_contacts_lines; [now right|].
  repeat constructor; simpl; try lia; discriminate.
Defined.

(** X15. Blank lines are skipped where a name is expected, and a name that a
    blank line follows is dropped: the input with such a line, or such a
    name and line, in front is read as the input without them. *)
Theorem tnine_read_contacts_blank (stdin : list ascii) :
  Tnine.read_contacts (Tnine.LF :: stdin) = Tnine.read_contacts stdin /\
  forall name, Tnine.plain_field [Tnine.LF] name ->
    Tnine.read_contacts (name ++ [Tnine.LF] ++ Tnine.LF :: stdin)
    = Tnine.read_contacts stdin.
Proof.
  split; [reflexivity|]. intros name Hn.
  remember (Tnine.read_contacts stdin) as R eqn:HR.
  unfold Tnine.read_contacts. cbn [Tnine.read_loop length].
  change (0 <? Tnine.MAX_CONTACTS)%nat with true. cbv iota.
  destruct (tnine_plain_line [Tnine.LF] name (Tnine.LF :: stdin) ltac:(now left) Hn)
    as (F1 & T1 & K1 & N1).
  rewrite F1, T1, N1.
  assert (F2 : Tnine.fgets Tnine.MAX_LENGTH (Tnine.LF :: stdin)
               = Some ([Tnine.LF], stdin)) by reflexivity.
  rewrite F2.
  assert (N2 : (length (Tnine.trim (Tnine.c_str [Tnine.LF])) =? 0)%nat = true)
    by reflexivity.
  rewrite N2. subst R. unfold Tnine.read_contacts.
  apply tnine_read_loop_fuel; rewrite ?length_app; simpl; lia.
Qed.

Lemma tnine_read_contacts_blank_witness :
  Tnine.read_contacts (list_ascii_of_string "eve" ++ [Tnine.LF] ++ Tnine.LF ::
                       list_ascii_of_string "bob" ++ [Tnine.LF] ++
                       list_ascii_of_string "12" ++ [Tnine.LF])
  = Done ([Tnine.mkContact (list_ascii_of_string "bob") (list_ascii_of_string "12")], []).
Proof.
  rewrite (proj2 (tnine_read_contacts_blank _) (list_ascii_of_string "eve")).
  - reflexivity.
  - repeat constructor; simpl; try lia; discriminate.
Defined.


(** * tnine: searching and the command line *)

Lemma tnine_search_loop (is_match : list ascii -> list ascii -> bool)
      (contacts : list Tnine.Contact) (query : list ascii) (found : bool) :
  Tnine.search_loop is_match contacts query found
  = (Tnine.printContacts (List.filter (Tnine.contact_matches is_match query) contacts),
     found || existsb (Tnine.contact_matches is_match query) contacts).
Proof.
  revert found. induction contacts as [|c contacts IH]; intros found; simpl.
  - now rewrite orb_false_r.
  - fold (Tnine.contact_matches is_match query c).
    destruct (Tnine.contact_matches is_match query c); simpl.
    + rewrite IH. simpl. now rewrite orb_true_r.
    + apply IH.
Qed.


Lemma tnine_unbroken_empty (str : list ascii) : Tnine.is_match_unbroken str [] = true.
Proof. destruct str as [|c str]; [reflexivity|]. simpl. now destruct str. Qed.

Lemma tnine_main_read (argv : list (list ascii)) (stdin : list ascii) :
  exists contacts rest,
    Tnine.read_contacts stdin = Done (contacts, rest) /\
    Tnine.main argv stdin
    = let argc := Z.of_nat (length argv) in
      let contacts := Tnine.contacts_to_lower contacts in
      if argc =? 1 then Done (0, Tnine.printContacts contacts, [])
      else if argc =? 2 then
        match argv !! 1%nat with
        | None => Undefined
        | Some query =>
            if negb (Tnine.isValidQuery query)
            then Done (1, [], list_ascii_of_string "Invalid query" ++ [Tnine.LF])
            else Done (0, Tnine.search_contacts Tnine.is_match_unbroken contacts query, [])
        end
      else
        match argv !! 0%nat with
        | None => Undefined
        | Some program =>
            Done (1, [],
                  list_ascii_of_string "Usage: " ++ program
                  ++ list_ascii_of_string " [-s] [CISLO] <[FILE]" ++ [Tnine.LF])
        end.
Proof.
  destruct (tnine_read_loop (S (length stdin)) stdin [] ltac:(lia)
              ltac:(unfold Tnine.MAX_CONTACTS; simpl; lia) ltac:(constructor))
    as (cs & rest & H & _).
  fold (Tnine.read_contacts stdin) in H.
  exists cs, rest. split; [exact H|]. unfold Tnine.main. now rewrite H.
Qed.

(** X17. With at least the program's name among its arguments [main]
    always returns, with exit code 0 or 1. The code is 1 exactly when there
    are more than two arguments or the query holds a character that is not a
    digit; then nothing is printed on standard output and the error stream
    holds a diagnostic. With code 0 the error stream is empty, also when
    the search finds nothing. *)
Theorem tnine_main_exit_code (argv : list (list ascii)) (stdin : list ascii) :
  argv <> [] ->
  exists code out err,
    Tnine.main argv stdin = Done (code, out, err) /\
    ((code = 0 /\ err = []) \/ (code = 1 /\ out = [] /\ err <> [])) /\
    (code = 1 <->
     (2 < length argv)%nat \/
     exists program query, argv = [program; query] /\
                           Tnine.isValidQuery query = false).
Proof.
  intros Hne.
  destruct (tnine_main_read argv stdin) as (cs & rest & _ & ->).
  destruct argv as [|program [|query [|third argv]]]; [contradiction| | |].
  - simpl. eexists _, _, _. split; [reflexivity|]. split; [now left|].
    split; [discriminate|]. intros [H|(p & q & [=] & _)]. simpl in H. lia.
  - simpl. destruct (Tnine.isValidQuery query) eqn:V; simpl.
    + eexists _, _, _. split; [reflexivity|]. split; [now left|].
      split; [discriminate|]. intros [H|(p & q & [= -> ->] & Hq)];
        [simpl in H; lia|congruence].
    + eexists _, _, _. split; [reflexivity|]. split; [now right|].
      split; [intros _|reflexivity]. right. now exists program, query.
  - assert (H1 : (Z.of_nat (length (program :: query :: third :: argv)) =? 1) = false)
      by (apply Z.eqb_neq; simpl; lia).
    assert (H2 : (Z.of_nat (length (program :: query :: third :: argv)) =? 2) = false)
      by (apply Z.eqb_neq; simpl; lia).
    cbv zeta. rewrite H1, H2. simpl.
    eexists _, _, _. split; [reflexivity|]. split; [now right|].
    split; [intros _|reflexivity]. left. lia.
Qed.

Lemma tnine_main_exit_code_witness :
  exists code out err,
    Tnine.main [list_ascii_of_string "tnine"; list_ascii_of_string "12a"] []
    = Done (code, out, err) /\
    ((code = 0 /\ err = []) \/ (code = 1 /\ out = [] /\ err <> [])) /\
    (code = 1 <->
     (2 < length [list_ascii_of_string "tnine"; list_ascii_of_string "12a"])%nat \/
     exists program query,
       [list_ascii_of_string "tnine"; list_ascii_of_string "12a"] = [program; query] /\
       Tnine.isValidQuery query = false).
Proof. apply tnine_main_exit_code. discriminate. Defined.

Lemma tnine_contact_line_nonempty (c : Tnine.Contact) : Tnine.contact_line c <> [].
Proof.
  unfold Tnine.contact_line. intros E. apply app_eq_nil in E as [_ E].
  discriminate.
Qed.

Lemma tnine_filter_all (m : Tnine.Contact -> bool) (cs : list Tnine.Contact) :
  (forall c, m c = true) -> List.filter m cs = cs.
Proof.
  intros H. induction cs as [|c cs IH]; simpl; [reflexivity|]. now rewrite H, IH.
Qed.

(** X18. The empty query finds every contact: with it [main] prints what it
    prints without a query, the list of all contacts, unless there is no
    contact, when it prints [Not found] instead of nothing. Both exit with
    0. *)
Theorem tnine_main_empty_query (program : list ascii) (stdin : list ascii) :
  exists listing,
    Tnine.main [program] stdin = Done (0, listing, []) /\
    Tnine.main [program; []] stdin
    = Done (0, match listing with
               | [] => list_ascii_of_string "Not found" ++ [Tnine.LF]
               | _ :: _ => listing
               end, []).
Proof.
  destruct (tnine_main_read [program] stdin) as (cs & rest & Hr & ->).
  destruct (tnine_main_read [program; []] stdin) as (cs' & rest' & Hr' & ->).
  rewrite Hr in Hr'. injection Hr' as <- <-.
  exists (Tnine.printContacts (Tnine.contacts_to_lower cs)). split; [reflexivity|].
  simpl. unfold Tnine.search_contacts. rewrite tnine_search_loop. cbn [orb].
  assert (Hall : forall c, Tnine.contact_matches Tnine.is_match_unbroken [] c = true).
  { intros c. unfold Tnine.contact_matches. now rewrite tnine_unbroken_empty. }
  rewrite (tnine_filter_all _ _ Hall).
  destruct (Tnine.contacts_to_lower cs) as [|c l] eqn:E; [reflexivity|].
  cbn [existsb]. rewrite Hall. cbn [orb negb Tnine.printContacts].
  destruct (Tnine.contact_line c ++ Tnine.printContacts l) eqn:E2; [|reflexivity].
  apply app_eq_nil in E2 as [E2 _]. now apply tnine_contact_line_nonempty in E2.
Qed.


(** * tnine: the case of the letters on standard input *)

Lemma tnine_to_lower_fmap (str : list ascii) : Tnine.to_lower str = Tnine.tolower <$> str.
Proof. induction str as [|c str IH]; simpl; [reflexivity|now rewrite IH]. Qed.

Lemma tnine_tolower_eqb (c : ascii) :
  Ascii.eqb (Tnine.tolower c) Tnine.NUL = Ascii.eqb c Tnine.NUL /\
  Ascii.eqb (Tnine.tolower c) Tnine.LF = Ascii.eqb c Tnine.LF /\
  Ascii.eqb (Tnine.tolower c) Tnine.CR = Ascii.eqb c Tnine.CR.
Proof.
  destruct (tnine_tolower_spec c) as (_ & H1 & H2 & H3).
  repeat split; apply eq_true_iff_eq; rewrite !Ascii.eqb_eq; assumption.
Qed.

Lemma tnine_read_line_lower (k : nat) (stream : list ascii) :
  Tnine.read_line k (Tnine.to_lower stream)
  = (Tnine.to_lower (Tnine.read_line k stream).1,
     Tnine.to_lower (Tnine.read_line k stream).2).
Proof.
  revert stream. induction k as [|k IH]; intros [|c stream]; try reflexivity.
  cbn [Tnine.to_lower Tnine.read_line].
  destruct (tnine_tolower_eqb c) as (_ & -> & _).
  destruct (Ascii.eqb c Tnine.LF); [reflexivity|].
  rewrite IH. now destruct (Tnine.read_line k stream).
Qed.

Lemma tnine_fgets_lower (stream : list ascii) :
  Tnine.fgets Tnine.MAX_LENGTH (Tnine.to_lower stream)
  = match Tnine.fgets Tnine.MAX_LENGTH stream with
    | Some (line, rest) => Some (Tnine.to_lower line, Tnine.to_lower rest)
    | None => None
    end.
Proof.
  destruct stream as [|c stream]; [reflexivity|].
  unfold Tnine.fgets. change (Tnine.to_lower (c :: stream))
    with (Tnine.tolower c :: Tnine.to_lower stream).
  cbv iota. change (Tnine.tolower c :: Tnine.to_lower stream)
    with (Tnine.to_lower (c :: stream)).
  rewrite tnine_read_line_lower.
  now destruct (Tnine.read_line (Tnine.MAX_LENGTH - 1) (c :: stream)).
Qed.

Lemma tnine_c_str_lower (l : list ascii) :
  Tnine.c_str (Tnine.to_lower l) = Tnine.to_lower (Tnine.c_str l).
Proof.
  induction l as [|c l IH]; [reflexivity|]. simpl.
  destruct (tnine_tolower_eqb c) as (-> & _).
  destruct (Ascii.eqb c Tnine.NUL); [reflexivity|]. simpl. now rewrite IH.
Qed.

Lemma tnine_trim_lower (l : list ascii) :
  Tnine.trim (Tnine.to_lower l) = Tnine.to_lower (Tnine.trim l).
Proof.
  unfold Tnine.trim. rewrite !tnine_to_lower_fmap, length_fmap.
  generalize (length l) as len. intros len. revert l.
  induction len as [|len IH]; intros l; [reflexivity|].
  cbn [Tnine.trim_loop]. rewrite list_lookup_fmap.
  destruct (l !! len) as [c|]; simpl; [|reflexivity].
  destruct (tnine_tolower_eqb c) as (_ & -> & ->).
  destruct (Ascii.eqb c Tnine.LF || Ascii.eqb c Tnine.CR); [|reflexivity].
  rewrite <- fmap_take. apply IH.
Qed.

Lemma tnine_field_lower (line : list ascii) :
  Tnine.trim (Tnine.c_str (Tnine.to_lower line))
  = Tnine.to_lower (Tnine.trim (Tnine.c_str line)).
Proof. now rewrite tnine_c_str_lower, tnine_trim_lower. Qed.

Lemma tnine_take_lower (k : nat) (l : list ascii) :
  take k (Tnine.to_lower l) = Tnine.to_lower (take k l).
Proof.
  now rewrite (tnine_to_lower_fmap l), (tnine_to_lower_fmap (take k l)), fmap_take.
Qed.

Lemma tnine_contacts_lower_app (cs1 cs2 : list Tnine.Contact) :
  Tnine.contacts_to_lower (cs1 ++ cs2)
  = Tnine.contacts_to_lower cs1 ++ Tnine.contacts_to_lower cs2.
Proof. induction cs1 as [|c cs1 IH]; simpl; [reflexivity|now rewrite IH]. Qed.

Lemma tnine_contacts_lower_length (cs : list Tnine.Contact) :
  length (Tnine.contacts_to_lower cs) = length cs.
Proof. induction cs as [|c cs IH]; simpl; [reflexivity|now rewrite IH]. Qed.

Lemma tnine_read_loop_lower (fuel : nat) (stdin : list ascii) (acc : list Tnine.Contact) :
  Tnine.read_loop fuel (Tnine.to_lower stdin) (Tnine.contacts_to_lower acc)
  = let* (contacts, rest) := Tnine.read_loop fuel stdin acc in
    Done (Tnine.contacts_to_lower contacts, Tnine.to_lower rest).
Proof.
  revert stdin acc. induction fuel as [|fuel IH]; intros stdin acc.
  - simpl. rewrite tnine_contacts_lower_length.
    now destruct (length acc <? Tnine.MAX_CONTACTS)%nat.
  - cbn [Tnine.read_loop]. rewrite tnine_contacts_lower_length.
    destruct (length acc <? Tnine.MAX_CONTACTS)%nat; [|reflexivity].
    rewrite tnine_fgets_lower.
    destruct (Tnine.fgets Tnine.MAX_LENGTH stdin) as [[line stdin1]|]; [|reflexivity].
    rewrite tnine_field_lower, tnine_to_lower_fmap, length_fmap.
    destruct (length (Tnine.trim (Tnine.c_str line)) =? 0)%nat; [apply IH|].
    rewrite tnine_fgets_lower.
    destruct (Tnine.fgets Tnine.MAX_LENGTH stdin1) as [[line2 stdin2]|]; [|reflexivity].
    rewrite tnine_field_lower, (tnine_to_lower_fmap (Tnine.trim (Tnine.c_str line2))),
      length_fmap.
    destruct (length (Tnine.trim (Tnine.c_str line2)) =? 0)%nat; [apply IH|].
    rewrite <- IH, tnine_contacts_lower_app. simpl.
    now rewrite !tnine_take_lower.
Qed.

Lemma tnine_to_lower_idem (str : list ascii) :
  Tnine.to_lower (Tnine.to_lower str) = Tnine.to_lower str.
Proof.
  induction str as [|c str IH]; simpl; [reflexivity|].
  destruct (tnine_tolower_spec c) as (-> & _). now rewrite IH.
Qed.

Lemma tnine_contacts_lower_idem (cs : list Tnine.Contact) :
  Tnine.contacts_to_lower (Tnine.contacts_to_lower cs) = Tnine.contacts_to_lower cs.
Proof.
  induction cs as [|c cs IH]; simpl; [reflexivity|].
  now rewrite !tnine_to_lower_idem, IH.
Qed.

(** X19. The case of the letters on standard input does not matter: [main]
    returns the same exit code and prints the same on both streams when the
    capital letters A to Z of the input are replaced by small ones. *)
Theorem tnine_main_case (argv : list (list ascii)) (stdin : list ascii) :
  Tnine.main argv (Tnine.to_lower stdin) = Tnine.main argv stdin.
Proof.
  unfold Tnine.main, Tnine.read_contacts.
  pose proof (tnine_read_loop_lower (S (length stdin)) stdin []) as H.
  change (Tnine.contacts_to_lower []) with (@nil Tnine.Contact) in H.
  rewrite tnine_to_lower_fmap, length_fmap, <- tnine_to_lower_fmap, H.
  destruct (Tnine.read_loop (S (length stdin)) stdin []) as [[cs rest]| | |];
    try reflexivity.
  cbn [obind]. now rewrite tnine_contacts_lower_idem.
Qed.

Lemma tnine_key_test_capital (c q : ascii) :
  (65 <= nat_of_ascii c <= 90)%nat ->
  Tnine.key_test c q = false /\
  exists k, Tnine.keypad (Tnine.tolower c) = Some k /\ isdigit k = true.
Proof.
  assert (H : forallb (fun c =>
                implb ((65 <=? nat_of_ascii c) && (nat_of_ascii c <=? 90))%nat
                  (forallb (fun q => negb (Tnine.key_test c q)) Tnine.all_ascii
                   && match Tnine.keypad (Tnine.tolower c) with
                      | Some k => isdigit k
                      | None => false
                      end)) Tnine.all_ascii = true) by (vm_compute; reflexivity).
  rewrite forallb_forall in H.
  specialize (H c (proj1 (list_elem_of_In _ _) (tnine_all_ascii c))).
  intros [H1 H2]. apply Nat.leb_le in H1, H2. rewrite H1, H2 in H. cbn [andb implb] in H.
  apply andb_true_iff in H as [Ha Hb]. split.
  - rewrite forallb_forall in Ha.
    specialize (Ha q (proj1 (list_elem_of_In _ _) (tnine_all_ascii q))).
    now apply negb_true_iff in Ha.
  - destruct (Tnine.keypad (Tnine.tolower c)) as [k|]; [|discriminate].
    now exists k.
Qed.

(** X20. A capital letter matches nothing: in a text of capital letters A to
    Z neither matcher finds a query that is not empty, while [tolower] puts
    each of these letters on a key. This is why [main] lowers the contacts
    before it searches. *)
Theorem tnine_capitals_never_match (str query : list ascii) :
  Forall (fun c => (65 <= nat_of_ascii c <= 90)%nat) str -> query <> [] ->
  Tnine.is_match_unbroken str query = false /\
  Tnine.is_match_complex str query = false /\
  Forall (fun c => exists k, Tnine.keypad c = Some k /\ isdigit k = true)
         (Tnine.to_lower str).
Proof.
  intros Hcap Hq.
  assert (Hno : forall sub, sub `sublist_of` str ->
            Forall2 (fun c q => Tnine.key_test c q = true) sub query -> False).
  { intros sub Hs HF. destruct HF as [|c q sub' query' Hk _]; [contradiction|].
    pose proof (tnine_sublist_Forall _ _ _ Hs Hcap) as Hc.
    inversion Hc as [|? ? Hc1 _]; subst.
    destruct (tnine_key_test_capital c q Hc1) as [Hf _]. congruence. }
  split; [|split].
  - destruct (Tnine.is_match_unbroken str query) eqn:E; [|reflexivity].
    apply tnine_unbroken_infix in E as (pre & mid & post & -> & HF).
    exfalso. apply (Hno mid); [|exact HF].
    apply sublist_inserts_l, sublist_inserts_r. reflexivity.
  - destruct (Tnine.is_match_complex str query) eqn:E; [|reflexivity].
    apply tnine_complex_sublist in E as (sub & Hs & HF).
    exfalso. exact (Hno sub Hs HF).
  - clear Hno. induction Hcap as [|c str Hc _ IH]; simpl; constructor.
    + exact (proj2 (tnine_key_test_capital c c Hc)).
    + exact IH.
Qed.

Lemma tnine_capitals_never_match_witness :
  Tnine.is_match_unbroken (list_ascii_of_string "BOB") (list_ascii_of_string "262")
  = false /\
  Tnine.is_match_complex (list_ascii_of_string "BOB") (list_ascii_of_string "262")
  = false /\
  Forall (fun c => exists k, Tnine.keypad c = Some k /\ isdigit k = true)
         (Tnine.to_lower (list_ascii_of_string "BOB")).
Proof.
  apply tnine_capitals_never_match; [|discriminate].
  repeat constructor; simpl; lia.
Defined.
